(** * zerorpc-node, lib/server.js: method registry, dispatch and result protocol

    A shallow embedding of [lib/server.js].  JavaScript values are a small
    inductive type, objects are association lists kept in [for .. in]
    enumeration order, and the closure state of [Server.prototype._recv]
    (the flags [isFirst] and [finished] plus everything the call did to the
    transport, the server's event emitter and the context) is threaded
    through a state-and-exception monad.

    Modelling boundary.  The transport ([./socket]) and the heartbeat
    primitive ([./middleware]) are not part of this file's source: a call
    into them is recorded in the trace and returns normally.  The server is
    an [EventEmitter] (through [util.inherits]); of Node's [events] module
    the model keeps what decides the control flow of [_recv]: emitting
    the [error] event on an emitter without a listener for it throws.
    A function that gets control ([apply]) is recorded, and what it does
    itself is outside the model.  Source text handed to [getArguments] is a
    [string] of code units below 256.  Numbers are integers plus NaN. *)

From Stdlib Require Import String Ascii List Bool ZArith Lia.
Import ListNotations.
Open Scope string_scope.

(** ** JavaScript values *)

Module JS.

#[local] Set Warnings "-register-all".

(** Function values are told apart by where they come from: an application
    function is known by its source text (what [Function.prototype.toString]
    returns), [VInspect out] is the closure injected by [publicMethods]
    (it captures [inspectedOutput]), [VNative n] is the built-in member [n]
    of [Object.prototype], and [VResult] is the result callback that [_recv]
    creates for its channel. *)
Inductive value : Type :=
| VUndefined
| VNull
| VBool (b : bool)
| VNum (n : Z)
| VNaN
| VStr (s : string)
| VArr (items : list value)
| VObj (props : list (string * value))
| VFun (src : string)
| VInspect (out : value)
| VNative (name : string)
| VResult.

(** An object as a property list in enumeration order. *)
Definition obj : Type := list (string * value).

Definition typeof (v : value) : string :=
  match v with
  | VUndefined => "undefined"
  | VNull => "object"
  | VBool _ => "boolean"
  | VNum _ | VNaN => "number"
  | VStr _ => "string"
  | VArr _ | VObj _ => "object"
  | VFun _ | VInspect _ | VNative _ | VResult => "function"
  end.

(** ToBoolean. *)
Definition truthy (v : value) : bool :=
  match v with
  | VUndefined | VNull | VNaN => false
  | VBool b => b
  | VNum n => negb (Z.eqb n 0)
  | VStr s => negb (String.eqb s EmptyString)
  | _ => true
  end.

(** [v != undefined] with loose equality: only null and undefined are
    loosely equal to undefined. *)
Definition neq_undefined (v : value) : bool :=
  match v with
  | VUndefined | VNull => false
  | _ => true
  end.

(** [a || b] *)
Definition or_else (a b : value) : value := if truthy a then a else b.


(** Own property lookup in a property list. *)
Fixpoint own (o : obj) (k : string) : option value :=
  match o with
  | [] => None
  | (k', v) :: rest => if String.eqb k' k then Some v else own rest k
  end.

(** [o[k] = v]: an existing property keeps its place, a new one is
    enumerated last.  That is the enumeration order of keys that are not
    array indices; JavaScript enumerates keys made of digits first, in
    ascending order, which this list does not do. *)
Fixpoint set (o : obj) (k : string) (v : value) : obj :=
  match o with
  | [] => [(k, v)]
  | (k', v') :: rest =>
      if String.eqb k' k then (k', v) :: rest else (k', v') :: set rest k v
  end.

Definition keys (o : obj) : list string := map fst o.

(** The members every ordinary object inherits from [Object.prototype]:
    those of ECMAScript 5.1 (15.2.4) followed by the ones V8 adds.  None of
    them is enumerable, so [for .. in] never yields them, but the [in]
    operator and property reads do find them. *)
Definition Object_prototype : list string :=
  [ "constructor"; "toString"; "toLocaleString"; "valueOf";
    "hasOwnProperty"; "isPrototypeOf"; "propertyIsEnumerable";
    "__defineGetter__"; "__defineSetter__"; "__lookupGetter__";
    "__lookupSetter__"; "__proto__" ].

Definition mem (k : string) (l : list string) : bool :=
  existsb (String.eqb k) l.

(** What a read of an inherited member gives: [__proto__] is the prototype
    object itself, every other member is a built-in function. *)
Definition inherited (k : string) : value :=
  if mem k Object_prototype
  then (if String.eqb k "__proto__" then VObj [] else VNative k)
  else VUndefined.

(** [o[k]] on an ordinary object. *)
Definition get (o : obj) (k : string) : value :=
  match own o k with
  | Some v => v
  | None => inherited k
  end.

(** [k in o] on an ordinary object: own properties, then the prototype. *)
Definition has (o : obj) (k : string) : bool :=
  match own o k with
  | Some _ => true
  | None => mem k Object_prototype
  end.

(** [v.k] for an arbitrary value.  Of the values the code reads properties
    from, only objects carry the properties it asks for ([type], [message],
    [stack]); on every other non-nullish value the read gives undefined. *)
Definition prop (v : value) (k : string) : value :=
  match v with
  | VObj props => match own props k with Some x => x | None => VUndefined end
  | _ => VUndefined
  end.

End JS.
Import JS.

(** ** [getArguments]: parameter names read off a function's source text *)

Module Re.

(** The character class [\s] on code units below 256. *)
Definition is_space (c : ascii) : bool :=
  let n := nat_of_ascii c in
  ((9 <=? n) && (n <=? 13) || (n =? 32) || (n =? 160))%nat.

Definition is_char (a c : ascii) : bool := Ascii.eqb a c.

(** [\r] or [\n] *)
Definition is_eol (c : ascii) : bool :=
  is_char "010" c || is_char "013" c.

(** The longest prefix of characters in a class, and what follows it.  A
    greedy [[class]*] followed by a character outside the class can only
    match this way, so no backtracking is lost. *)
Fixpoint span (p : ascii -> bool) (s : string) : string * string :=
  match s with
  | EmptyString => (EmptyString, EmptyString)
  | String c rest =>
      if p c
      then (let (a, b) := span p rest in (String c a, b))
      else (EmptyString, s)
  end.

(** [s] with the literal [lit] taken off its front. *)
Fixpoint literal (lit s : string) : option string :=
  match lit, s with
  | EmptyString, _ => Some s
  | String a lit', String c rest =>
      if Ascii.eqb a c then literal lit' rest else None
  | String _ _, EmptyString => None
  end.

(** The regular expression [m1]: anchored at the start, a run of white space
    and opening parentheses, the word function, a run of characters other
    than an opening parenthesis, an opening parenthesis, a captured run of
    characters other than a closing parenthesis, and a closing parenthesis.
    The result is the capture group of the match, or [None] when
    [String.prototype.match] returns null. *)
Definition m1 (s : string) : option string :=
  let (_, s1) := span (fun c => is_space c || is_char "(" c) s in
  match literal "function" s1 with
  | None => None
  | Some s2 =>
      let (_, s3) := span (fun c => negb (is_char "(" c)) s2 in
      match s3 with
      | String _ s4 =>
          let (group, s5) := span (fun c => negb (is_char ")" c)) s4 in
          match s5 with
          | String _ _ => Some group
          | EmptyString => None
          end
      | EmptyString => None
      end
  end.

(** Does a line end, respectively a [*/], occur in [s]?  The lazy bodies of
    [m2] match exactly when their closing delimiter is still to come. *)
Fixpoint has_eol (s : string) : bool :=
  match s with
  | EmptyString => false
  | String c rest => is_eol c || has_eol rest
  end.

Fixpoint has_close (s : string) : bool :=
  match s with
  | String c1 ((String c2 _) as rest) =>
      (is_char "*" c1 && is_char "/" c2) || has_close rest
  | _ => false
  end.

Inductive mode : Type := Code | Line | Block.

(** [.replace(m2, '')] with
    [m2 = /\/\/.*?[\r\n]|\/\*(?:.|[\r\n])*?\*\//g]: a left-to-right scan.
    In [Code] a match can start at the current position; [Line] and [Block]
    are past the two opening characters of a match whose end is known to
    exist, and drop characters up to and including that end. *)
Fixpoint strip (m : mode) (s : string) : string :=
  match s with
  | EmptyString => EmptyString
  | String c1 rest =>
      match m with
      | Code =>
          match rest with
          | String c2 rest2 =>
              if is_char "/" c1 && is_char "/" c2 && has_eol rest2
              then strip Line rest2
              else if is_char "/" c1 && is_char "*" c2 && has_close rest2
              then strip Block rest2
              else String c1 (strip Code rest)
          | EmptyString => String c1 EmptyString
          end
      | Line => if is_eol c1 then strip Code rest else strip Line rest
      | Block =>
          match rest with
          | String c2 rest2 =>
              if is_char "*" c1 && is_char "/" c2
              then strip Code rest2
              else strip Block rest
          | EmptyString => EmptyString
          end
      end
  end.

Definition m2_removed (s : string) : string := strip Code s.

(** [.replace(m3, '')] with [m3 = /\s+/g]. *)
Fixpoint m3_removed (s : string) : string :=
  match s with
  | EmptyString => EmptyString
  | String c rest =>
      if is_space c then m3_removed rest else String c (m3_removed rest)
  end.

(** [.split(',')]: one more piece than there are commas. *)
Fixpoint split_comma (s : string) : list string :=
  match s with
  | EmptyString => [EmptyString]
  | String c rest =>
      if is_char "," c
      then EmptyString :: split_comma rest
      else match split_comma rest with
           | piece :: more => String c piece :: more
           | [] => [String c EmptyString]
           end
  end.

End Re.

(** [getArguments(fun)] on the source text of [fun].  [None] is the
    TypeError raised by [null[1]] when [m1] does not match. *)
Definition getArguments (src : string) : option (list string) :=
  match Re.m1 src with
  | None => None
  | Some group =>
      let names := Re.split_comma (Re.m3_removed (Re.m2_removed group)) in
      Some (match names with
            | [first] => if negb (truthy (VStr first)) then [] else names
            | _ => names
            end)
  end.

(** ** [publicMethods]: the registry and the introspection manifest *)

(** [fun.toString()].  An application function prints as its source text.
    For the closures this file creates, the text is given up to the end of
    the parameter list, which is as far as [getArguments] reads. *)
Definition toString (f : value) : string :=
  match f with
  | VFun src => src
  | VInspect _ => "function(cb) { }"
  | VResult => "function(error, item, more) { }"
  | VNative name => "function " ++ name ++ "() { [native code] }"
  | _ => EmptyString
  end.

(** [/^_/.test(name)] *)
Definition underscore (name : string) : bool :=
  match name with
  | String c _ => Re.is_char "_" c
  | EmptyString => false
  end.

(** First loop: [methods[name] = true] for every enumerated member that is a
    function and whose name does not start with an underscore. *)
Definition collect (context : obj) : obj :=
  fold_left
    (fun methods name =>
       if negb (underscore name)
          && String.eqb (typeof (get context name)) "function"
       then set methods name (VBool true)
       else methods)
    (keys context) [].

(** One element of [inspected]: the name, then [argsWithSelf] followed by
    three nulls, then the empty string. *)
Definition entry (name : string) (argsWithSelf : list string) : value :=
  VArr [ VStr name;
         VArr [ VArr (map VStr argsWithSelf); VNull; VNull; VNull ];
         VStr EmptyString ].

(** [args.shift()] leaves the array without its first element; on an empty
    array it does nothing. *)
Definition shift (args : list string) : list string := tl args.

(** Second loop: one manifest entry per key of [methods]. *)
Fixpoint inspect (context : obj) (names : list string)
  : option (list value) :=
  match names with
  | [] => Some []
  | name :: rest =>
      match getArguments (toString (get context name)) with
      | None => None
      | Some args =>
          let argsWithSelf := "self" :: shift args in
          match inspect context rest with
          | None => None
          | Some inspected => Some (entry name argsWithSelf :: inspected)
          end
      end
  end.

(** [publicMethods(context)] returns [methods]; the second component is the
    context object as the call leaves it.  [None] is the TypeError of
    [getArguments], raised before anything is assigned. *)
Definition publicMethods (context : obj) : option (obj * obj) :=
  let methods := collect context in
  match inspect context (keys methods) with
  | None => None
  | Some inspected =>
      let inspectedOutput := VObj [("methods", VArr inspected)] in
      Some (set methods "_zerorpc_inspect" (VBool true),
            set context "_zerorpc_inspect" (VInspect inspectedOutput))
  end.

(** The manifest that a constructed context carries. *)
Definition manifest (context : obj) : option value :=
  match publicMethods context with
  | Some (_, context') =>
      match get context' "_zerorpc_inspect" with
      | VInspect (VObj [(_, VArr inspected)]) => Some (VArr inspected)
      | _ => None
      end
  | None => None
  end.

(** ** The server, the channel of a call and the result callback *)

Record event : Type := { name : string; args : value }.

(** What a call does to the outside, in the order it does it. *)
Inductive effect : Type :=
| OpenChannel (ev : event)
| AddHeartbeat (interval : value)
| Send (kind : string) (payload : value)
| Close
| Emit (what : string) (arg : value)
| Apply (f : value) (arguments : list value).

(** The variables that [_recv] and its closures share, and the context. *)
Record call : Type :=
  { isFirst : bool; finished : bool; context : obj; trace : list effect }.

(** [Unhandled arg] is what [emit("error", arg)] throws on an emitter that
    has no listener for [error]. *)
Inductive exn : Type :=
| Error (message : string)
| TypeError
| Unhandled (arg : value).

Inductive completion (A : Type) : Type :=
| Normal (a : A)
| Throw (e : exn).
Arguments Normal {A} a.
Arguments Throw {A} e.

Definition M (A : Type) : Type := call -> completion A * call.

Definition ret {A} (a : A) : M A := fun st => (Normal a, st).

Definition throw {A} (e : exn) : M A := fun st => (Throw e, st).

Definition bind {A B} (m : M A) (k : A -> M B) : M B :=
  fun st =>
    match m st with
    | (Normal a, st') => k a st'
    | (Throw e, st') => (Throw e, st')
    end.

Declare Scope js_scope.
Delimit Scope js_scope with js.
Notation "x <- m ;; k" := (bind m (fun x => k))
  (at level 61, m at next level, right associativity) : js_scope.
Notation "m ;; k" := (bind m (fun _ => k))
  (at level 61, right associativity) : js_scope.

Definition get_isFirst : M bool := fun st => (Normal (isFirst st), st).
Definition get_finished : M bool := fun st => (Normal (finished st), st).
Definition get_context : M obj := fun st => (Normal (context st), st).

Definition set_isFirst (b : bool) : M unit :=
  fun st =>
    (Normal tt,
     {| isFirst := b; finished := finished st;
        context := context st; trace := trace st |}).

Definition set_finished (b : bool) : M unit :=
  fun st =>
    (Normal tt,
     {| isFirst := isFirst st; finished := b;
        context := context st; trace := trace st |}).

Definition log (e : effect) : M unit :=
  fun st =>
    (Normal tt,
     {| isFirst := isFirst st; finished := finished st;
        context := context st; trace := (trace st ++ [e])%list |}).

Definition DEFAULT_HEARTBEAT : Z := 5.

(** [x * 1000] for a number [x].  The product is that of the code when [x]
    is an integer and the product stays within 2^53 in absolute value, where
    double arithmetic is exact; fractions, larger numbers and the numeric
    coercion of other values are not represented. *)
Definition times_1000 (x : value) : value :=
  match x with
  | VNum n => VNum (n * 1000)
  | _ => VNaN
  end.

(** A stack text to run the callback with: the first line of what V8
    prints. *)
Definition stack_text (message : string) : value :=
  VStr ("Error: " ++ message).

Section Server.

(** The [stack] property V8 gives to [new Error(message)] created inside
    the result callback. *)
Variable stack_of : string -> value.

Local Open Scope js_scope.

(** [new Error(message)] as the object the code reads: it has a [message]
    and a [stack], and no [type]. *)
Definition new_Error (message : string) : value :=
  VObj [("message", VStr message); ("stack", stack_of message)].

Definition channel_send (kind : string) (payload : value) : M unit :=
  log (Send kind payload).

Definition channel_close : M unit := log Close.

(** [finish]: cleans up. *)
Definition finish : M unit :=
  set_finished true ;;
  channel_close.

(** [result(error, item, more)], the callback passed to RPC methods.
    [typeof(error) == 'string'] holds exactly for a [VStr], which is then
    wrapped by [new Error]. *)
Definition result (error item more : value) : M unit :=
  finished <- get_finished ;;
  (if finished then
     throw (Error "Result callback called after the channel was closed")
   else if truthy error then
     let errorObj :=
       match error with
       | VStr message => new_Error message
       | _ => error
       end in
     let args :=
       VArr [ or_else (prop errorObj "type") (VStr "Error");
              prop errorObj "message";
              prop errorObj "stack" ] in
     channel_send "ERR" args ;;
     finish
   else
     isFirst <- get_isFirst ;;
     (if isFirst && negb (truthy more) then
        channel_send "OK" (VArr [item])
      else if neq_undefined item then
        channel_send "STREAM" item
      else ret tt) ;;
     (if negb (truthy more) then
        isFirst <- get_isFirst ;;
        (if negb isFirst then channel_send "STREAM_DONE" (VArr [])
         else ret tt) ;;
        finish
      else ret tt)) ;;
  set_isFirst false.

(** Calling [cb(a, b, c)] from the injected introspector.  [VResult] is the
    callback of the channel at hand; any other function is application code,
    whose call is recorded; anything else is not callable. *)
Definition call_cb (cb a b c : value) : M unit :=
  match cb with
  | VResult => result a b c
  | VFun _ | VInspect _ | VNative _ => log (Apply cb [a; b; c])
  | _ => throw TypeError
  end.

(** [f.apply(context, arguments)].  The injected introspector is run: it
    calls its first argument.  Application code and built-ins are recorded:
    they get control here, and what they then do (a built-in such as
    [__defineGetter__] writes to its receiver) is not part of the trace.  A
    value that is no function has no [apply] of its own kind; an object that
    carries a callable [apply] property is not told apart from one that
    does not. *)
Definition apply (f : value) (arguments : list value) : M unit :=
  match f with
  | VInspect inspectedOutput =>
      call_cb (hd VUndefined arguments) VNull inspectedOutput (VBool false)
  | VFun _ | VNative _ | VResult => log (Apply f arguments)
  | _ => throw TypeError
  end.

(** The server object: the registry and the heartbeat interval that its
    listener closes over, and, of its [EventEmitter] part, the number of
    listeners registered for [error]. *)
Record server : Type :=
  { methods : obj; heartbeat : value; error_listeners : nat }.


(** [self.emit("error", arg)]: the listeners get the argument; without a
    listener the emitter throws. *)
Definition emit_error (self : server) (arg : value) : M unit :=
  match error_listeners self with
  | O => throw (Unhandled arg)
  | S _ => log (Emit "error" arg)
  end.

(** The body of [Server.prototype._recv] after its variable declarations. *)
Definition recv_body (self : server) (ev : event) (heartbeat : value)
  : M unit :=
  log (OpenChannel ev) ;;
  log (AddHeartbeat heartbeat) ;;
  match args ev with
  | VArr items =>
      let arguments := (items ++ [VResult])%list in
      context <- get_context ;;
      apply (get context (name ev)) arguments
  | _ =>
      emit_error self (VStr "Invalid event: Bad args") ;;
      finish
  end.

(** [self._recv(event, heartbeat, context)], with [isFirst = true] and
    [finished = false] to begin with. *)
Definition _recv (self : server) (ev : event) (heartbeat : value)
  (context : obj) : completion unit * call :=
  recv_body self ev heartbeat
    {| isFirst := true; finished := false;
       context := context; trace := [] |}.

(** [new Server(context, options)]: the server and the context as
    construction leaves it.  The constructor registers no listener on the
    server itself ([etc.eventProxy] listens on the socket). *)
Definition Server (context : obj) (options : value) : option (server * obj) :=
  let options := or_else options (VObj []) in
  let heartbeat :=
    times_1000 (or_else (prop options "heartbeat") (VNum DEFAULT_HEARTBEAT)) in
  match publicMethods context with
  | None => None
  | Some (methods, context') =>
      Some ({| methods := methods; heartbeat := heartbeat;
               error_listeners := 0 |}, context')
  end.

(** The listener on [multiplexing-socket/receive].  [None]: the listener
    returns without having done anything. *)
Definition receive (self : server) (context : obj) (ev : event)
  : option (completion unit * call) :=
  if has (methods self) (name ev)
  then Some (_recv self ev (heartbeat self) context)
  else None.

(** What a delivery did to the outside. *)
Definition effects (r : option (completion unit * call)) : list effect :=
  match r with
  | Some (_, st) => trace st
  | None => []
  end.

(** A method calls the result callback some number of times.  A call that
    throws gives the exception to the method and leaves the channel's
    variables as they are. *)
Definition invocation : Type := (value * value * value)%type.

Definition invoke (st : call) (i : invocation) : call :=
  let '(error, item, more) := i in snd (result error item more st).

Definition invoke_all (calls : list invocation) (st : call) : call :=
  fold_left invoke calls st.

(** The variables of a call that has just handed control to its method. *)
Definition fresh (context : obj) (before : list effect) : call :=
  {| isFirst := true; finished := false;
     context := context; trace := before |}.

(** Frames that end a call. *)
Definition terminal (e : effect) : bool :=
  match e with
  | Send kind _ => String.eqb kind "OK" || String.eqb kind "ERR"
  | _ => false
  end.



(** ** Notions used in the statements *)

(** The outcome of a callback that sends [frames] and then closes. *)
Definition closed_with (st : call) (frames : list effect)
  : completion unit * call :=
  (Normal tt,
   {| isFirst := false; finished := true; context := context st;
      trace := (trace st ++ frames ++ [Close])%list |}).

(** The payload of the ERR frame for [error]. *)
Definition ERR_args (error : value) : value :=
  match error with
  | VStr message => VArr [VStr "Error"; VStr message; stack_of message]
  | _ =>
      VArr [ or_else (prop error "type") (VStr "Error");
             prop error "message"; prop error "stack" ]
  end.

(** The shape of a channel's trace: no terminal frame while the channel is
    open; once it is finished, the trace ends in [Close], and a terminal
    frame can only be the one right before that [Close]. *)
Definition quiet (tr : list effect) : Prop :=
  Forall (fun e => terminal e = false) tr.

Definition shape (fin : bool) (tr : list effect) : Prop :=
  if fin
  then exists pre,
         quiet pre /\
         (tr = (pre ++ [Close])%list \/
          exists e, terminal e = true /\ tr = (pre ++ [e; Close])%list)
  else quiet tr.

(** Is [k] an own key of the registry [o]? *)
Definition registered (o : obj) (k : string) : bool :=
  match own o k with
  | Some _ => true
  | None => false
  end.

(** The test of the first loop of [publicMethods]. *)
Definition public (ctx : obj) (k : string) : bool :=
  negb (underscore k) && String.eqb (typeof (get ctx k)) "function".

(** The properties of an object other than [_zerorpc_inspect], in
    enumeration order. *)
Definition others (o : obj) : obj :=
  filter (fun p => negb (String.eqb (fst p) "_zerorpc_inspect")) o.

(** The characters of a plain identifier. *)
Definition ident_char (c : ascii) : bool :=
  let n := nat_of_ascii c in
  ((65 <=? n) && (n <=? 90) || (97 <=? n) && (n <=? 122)
   || (48 <=? n) && (n <=? 57) || (n =? 95) || (n =? 36))%nat.

Fixpoint all (p : ascii -> bool) (s : string) : bool :=
  match s with
  | EmptyString => true
  | String c rest => p c && all p rest
  end.

Definition identifier (s : string) : bool :=
  match s with
  | EmptyString => false
  | String _ _ => all ident_char s
  end.

(** The text of a function declared with the parameters [params]: its name
    (possibly empty), the parameter list and the body. *)
Definition declaration (fname : string) (params : list string) (body : string)
  : string :=
  "function " ++ fname ++ "(" ++ String.concat ", " params ++ ") {"
    ++ body ++ "}".

(** ** Notions used in the further statements *)

(** The texts that [m1] matches, read off the regular expression: a lead of
    white space and opening parentheses, the word function, a stretch
    without an opening parenthesis, the parenthesised group [g] without a
    closing parenthesis, and anything after it. *)
Definition m1_shape (s g : string) : Prop :=
  exists lead mid tail,
    s = lead ++ "function" ++ mid ++ "(" ++ g ++ ")" ++ tail
    /\ all (fun c => Re.is_space c || Re.is_char "(" c) lead = true
    /\ all (fun c => negb (Re.is_char "(" c)) mid = true
    /\ all (fun c => negb (Re.is_char ")" c)) g = true.

(** A function's text in any layout that [m1] accepts: a lead of white
    space and opening parentheses, the word function, anything without an
    opening parenthesis (blanks, the function's name), the parenthesised
    parameter text [group], and anything after it (the body). *)
Definition function_text (lead mid group tail : string) : string :=
  lead ++ "function" ++ mid ++ "(" ++ group ++ ")" ++ tail.

Definition blank (s : string) : bool := all Re.is_space s.

(** One parameter as it is written: its name with white space on either
    side. *)
Record written : Type :=
  { pad_left : string; param : string; pad_right : string }.

Definition written_ok (w : written) : bool :=
  blank (pad_left w) && identifier (param w) && blank (pad_right w).

Definition written_text (w : written) : string :=
  pad_left w ++ param w ++ pad_right w.

(** The text between the parentheses: the written parameters separated by
    commas, or white space only when there is no parameter. *)
Definition list_text (gap : string) (ws : list written) : string :=
  match ws with
  | [] => gap
  | _ :: _ => String.concat "," (map written_text ws)
  end.

(** A key made of decimal digits only; JavaScript enumerates such keys
    before all others. *)
Definition is_digit (c : ascii) : bool :=
  let n := nat_of_ascii c in ((48 <=? n) && (n <=? 57))%nat.

Definition digits_only (k : string) : bool :=
  match k with
  | EmptyString => false
  | String _ _ => all is_digit k
  end.

(** Characters that no returned parameter name contains. *)
Definition separator (c : ascii) : bool :=
  Re.is_space c || Re.is_char "," c || Re.is_char ")" c.

Definition is_close (e : effect) : bool :=
  match e with
  | Close => true
  | _ => false
  end.

(** The sequences of channel operations that the result callback can have
    produced: while the call is open, STREAM frames of items that are
    neither null nor undefined; once it is finished, either a single OK
    frame holding a one-element array, or such STREAM frames ended by a
    STREAM_DONE with an empty array or by an ERR with a three-element array;
    in both cases followed by the close of the channel. *)
Definition streamed (items : list value) : list effect :=
  map (Send "STREAM") items.

Definition defined (items : list value) : Prop :=
  Forall (fun item => neq_undefined item = true) items.

Definition last_frame (e : effect) : Prop :=
  e = Send "STREAM_DONE" (VArr [])
  \/ exists type message stack, e = Send "ERR" (VArr [type; message; stack]).

Definition protocol (fin : bool) (ops : list effect) : Prop :=
  if fin
  then (exists item, ops = [Send "OK" (VArr [item]); Close])
       \/ (exists items e,
             defined items /\ last_frame e
             /\ ops = (streamed items ++ [e; Close])%list)
  else exists items, defined items /\ ops = streamed items.

(** The channel is closed when, and only when, [finished] is set. *)
Definition closes (fin : bool) (tr : list effect) : Prop :=
  if fin
  then exists pre, tr = (pre ++ [Close])%list /\ filter is_close pre = []
  else filter is_close tr = [].

(** The operations since the call began follow the protocol; as long as no
    invocation has been made, there are none. *)
Definition follows (before : list effect) (st : call) : Prop :=
  exists ops,
    trace st = (before ++ ops)%list
    /\ protocol (finished st) ops
    /\ (finished st = false -> isFirst st = true -> ops = []).

(** A context with two public functions, a hidden one and a datum. *)
Definition sample_context : obj :=
  [ ("add", VFun "function (a, b, cb) { cb(null, a + b); }");
    ("_hidden", VFun "function (cb) { cb(); }");
    ("version", VStr "1");
    ("ping", VFun "function (cb) { cb(null, 1); }") ].

(** The server that construction on [sample_context] gives, and a request. *)
Definition sample_server : server :=
  {| methods := [ ("add", VBool true); ("ping", VBool true);
                  ("_zerorpc_inspect", VBool true) ];
     heartbeat := VNum 5000; error_listeners := 0 |}.

Ltac js_unfold :=
  unfold recv_body, emit_error, apply, call_cb, result, finish, channel_send,
    channel_close, bind, ret, throw, log, get_isFirst, get_finished,
    get_context, set_isFirst, set_finished;
  cbn [isFirst finished context trace fst snd].

(** ** [getArguments] on sample sources *)

Example getArguments_three :
  getArguments "function (a, b, cb) { cb(null, a + b); }"
  = Some ["a"; "b"; "cb"].
Proof. reflexivity. Qed.

Example getArguments_none :
  getArguments "function noop() {}" = Some [].
Proof. reflexivity. Qed.

Example getArguments_comments :
  getArguments "function f(a /* first */, // second
   b, cb) { }" = Some ["a"; "b"; "cb"].
Proof. reflexivity. Qed.

Example getArguments_comment_edge :
  getArguments "function f(a /*/ x */, b) {}" = Some ["a"; "b"].
Proof. reflexivity. Qed.

Example getArguments_open_comment :
  getArguments "function f(a, b // cb) {}" = Some ["a"; "b//cb"].
Proof. reflexivity. Qed.

Example getArguments_no_match :
  getArguments "(a, cb) => cb(null, a)" = None.
Proof. reflexivity. Qed.

(** ** [getArguments] on a declaration *)

Lemma ident_char_plain (c : ascii) :
  ident_char c = true ->
  Re.is_space c = false /\ Re.is_char "(" c = false
  /\ Re.is_char ")" c = false /\ Re.is_char "," c = false
  /\ Re.is_char "/" c = false.
Proof.
  destruct c as [[] [] [] [] [] [] [] []]; cbn; intros H;
    try discriminate H; repeat split.
Qed.

Lemma all_impl (p q : ascii -> bool) (s : string) :
  (forall c, p c = true -> q c = true) -> all p s = true -> all q s = true.
Proof.
  intros Hpq. induction s as [| c s IH]; cbn; [reflexivity |].
  intros [Hc Hs]%andb_true_iff. now rewrite (Hpq _ Hc), IH.
Qed.

Lemma all_app (p : ascii -> bool) (a b : string) :
  all p (a ++ b) = all p a && all p b.
Proof.
  induction a as [| c a IH]; cbn; [reflexivity |].
  now rewrite IH, andb_assoc.
Qed.

Lemma identifier_all (s : string) : identifier s = true -> all ident_char s = true.
Proof. destruct s; [discriminate | trivial]. Qed.

Lemma concat_one (sep x : string) : String.concat sep [x] = x.
Proof. reflexivity. Qed.

Lemma concat_cons (sep x y : string) (l : list string) :
  String.concat sep (x :: y :: l) = x ++ sep ++ String.concat sep (y :: l).
Proof. reflexivity. Qed.

Lemma all_concat (p : ascii -> bool) (sep : string) (l : list string) :
  all p sep = true -> forallb (all p) l = true ->
  all p (String.concat sep l) = true.
Proof.
  intros Hsep. induction l as [| x l IH]; [reflexivity |].
  cbn [forallb]. intros [Hx Hl]%andb_true_iff.
  destruct l as [| y l].
  - now rewrite concat_one.
  - rewrite concat_cons, !all_app, Hx, Hsep. cbn [andb]. exact (IH Hl).
Qed.

Lemma forallb_impl {A} (p q : A -> bool) (l : list A) :
  (forall a, p a = true -> q a = true) ->
  forallb p l = true -> forallb q l = true.
Proof.
  intros Hpq. induction l as [| a l IH]; cbn; [reflexivity |].
  intros [Ha Hl]%andb_true_iff. now rewrite (Hpq _ Ha), IH.
Qed.

Lemma span_app (p : ascii -> bool) (a b : string) :
  all p a = true -> Re.span p b = (EmptyString, b) ->
  Re.span p (a ++ b) = (a, b).
Proof.
  intros Ha Hb. induction a as [| c a IH]; cbn in *; [exact Hb |].
  apply andb_true_iff in Ha as [Hc Ha]. now rewrite Hc, (IH Ha).
Qed.

Lemma strip_no_slash (s : string) :
  all (fun c => negb (Re.is_char "/" c)) s = true -> Re.strip Re.Code s = s.
Proof.
  induction s as [| c s IH]; cbn [all Re.strip]; [reflexivity |].
  intros [Hc Hs]%andb_true_iff. apply negb_true_iff in Hc.
  destruct s as [| c2 s2]; [reflexivity |].
  rewrite Hc. cbn [andb]. now rewrite (IH Hs).
Qed.

Lemma m3_removed_app (a b : string) :
  Re.m3_removed (a ++ b) = Re.m3_removed a ++ Re.m3_removed b.
Proof.
  induction a as [| c a IH]; cbn; [reflexivity |].
  destruct (Re.is_space c); cbn; now rewrite IH.
Qed.

Lemma m3_removed_plain (s : string) :
  all (fun c => negb (Re.is_space c)) s = true -> Re.m3_removed s = s.
Proof.
  induction s as [| c s IH]; cbn; [reflexivity |].
  intros [Hc Hs]%andb_true_iff. apply negb_true_iff in Hc.
  now rewrite Hc, (IH Hs).
Qed.

Lemma m3_removed_concat (l : list string) :
  forallb (all (fun c => negb (Re.is_space c))) l = true ->
  Re.m3_removed (String.concat ", " l) = String.concat "," l.
Proof.
  induction l as [| x l IH]; [reflexivity |].
  cbn [forallb]. intros [Hx Hl]%andb_true_iff.
  destruct l as [| y l].
  - rewrite !concat_one. now apply m3_removed_plain.
  - rewrite !concat_cons, !m3_removed_app, (m3_removed_plain _ Hx), (IH Hl).
    reflexivity.
Qed.

Lemma split_comma_plain (s : string) :
  all (fun c => negb (Re.is_char "," c)) s = true -> Re.split_comma s = [s].
Proof.
  induction s as [| c s IH]; cbn; [reflexivity |].
  intros [Hc Hs]%andb_true_iff. apply negb_true_iff in Hc.
  now rewrite Hc, (IH Hs).
Qed.

Lemma split_comma_app (a b : string) :
  all (fun c => negb (Re.is_char "," c)) a = true ->
  Re.split_comma (a ++ String "," b) = a :: Re.split_comma b.
Proof.
  induction a as [| c a IH]; cbn; [reflexivity |].
  intros [Hc Ha]%andb_true_iff. apply negb_true_iff in Hc.
  now rewrite Hc, (IH Ha).
Qed.

Lemma split_comma_concat (l : list string) :
  l <> [] ->
  forallb (all (fun c => negb (Re.is_char "," c))) l = true ->
  Re.split_comma (String.concat "," l) = l.
Proof.
  induction l as [| x l IH]; [now intros [] |].
  intros _. cbn [forallb]. intros [Hx Hl]%andb_true_iff.
  destruct l as [| y l].
  - rewrite concat_one. now apply split_comma_plain.
  - rewrite concat_cons.
    change ("," ++ String.concat "," (y :: l))
      with (String "," (String.concat "," (y :: l))).
    rewrite (split_comma_app _ _ Hx). f_equal.
    apply IH; [discriminate | exact Hl].
Qed.

(** For a function declared with plain identifiers as parameters,
    [getArguments] returns exactly the declared parameter names, in
    declaration order. *)
Lemma getArguments_declaration (fname : string) (params : list string) (body : string) :
  all (fun c => negb (Re.is_char "(" c)) fname = true ->
  forallb identifier params = true ->
  getArguments (declaration fname params body) = Some params.
Proof.
  intros Hname Hparams.
  assert (Hall : forall q : ascii -> bool,
             (forall c, ident_char c = true -> q c = true) ->
             forallb (all q) params = true).
  { intros q Hq. apply (forallb_impl identifier); [| exact Hparams].
    intros a Ha. apply (all_impl ident_char); [exact Hq |].
    now apply identifier_all. }
  assert (Hplain : forall f : ascii -> bool,
             (forall c, ident_char c = true -> f c = false) ->
             forallb (all (fun c => negb (f c))) params = true).
  { intros f Hf. apply Hall. intros c Hc. now rewrite (Hf c Hc). }
  assert (Hgroup : forall f : ascii -> bool,
             (forall c, ident_char c = true -> f c = false) ->
             f ","%char = false -> f " "%char = false ->
             all (fun c => negb (f c)) (String.concat ", " params) = true).
  { intros f Hf Hcomma Hblank. apply all_concat.
    - cbn. now rewrite Hcomma, Hblank.
    - now apply Hplain. }
  unfold getArguments, declaration, Re.m1.
  remember (String.concat ", " params) as group eqn:Egroup.
  remember (fname ++ "(" ++ group ++ ") {" ++ body ++ "}") as rest eqn:Erest.
  simpl. subst rest.
  rewrite (span_app _ fname); [| exact Hname | reflexivity].
  simpl.
  rewrite (span_app _ group); [| | reflexivity].
  2:{ subst group.
      apply (Hgroup (Re.is_char ")")); try reflexivity.
      intros c Hc. apply (ident_char_plain c Hc). }
  unfold Re.m2_removed. rewrite strip_no_slash.
  2:{ subst group.
      apply (Hgroup (Re.is_char "/")); try reflexivity.
      intros c Hc. apply (ident_char_plain c Hc). }
  subst group. rewrite m3_removed_concat.
  2:{ apply Hplain. intros c Hc. apply (ident_char_plain c Hc). }
  destruct params as [| p params]; [reflexivity |].
  rewrite split_comma_concat; [| discriminate |].
  2:{ apply (Hplain (Re.is_char ",")). intros c Hc. apply (ident_char_plain c Hc). }
  destruct params as [| p2 params]; [| reflexivity].
  cbn in Hparams. rewrite andb_true_r in Hparams.
  destruct p; [discriminate | reflexivity].
Qed.

(** ** The result protocol *)

Lemma app_two {A} (l : list A) (a b : A) :
  ((l ++ [a]) ++ [b] = l ++ [a; b])%list.
Proof. now rewrite <- app_assoc. Qed.

(** C3. The very first invocation, with no error and a false [more], sends
    one OK frame whose payload is the one-element array of [item] and closes
    the channel; nothing else is sent, in particular no STREAM_DONE. *)
Theorem first_reply_is_single_OK :
  forall (error item more : value) (ctx : obj) (before : list effect),
    truthy error = false ->
    truthy more = false ->
    result error item more (fresh ctx before)
    = closed_with (fresh ctx before) [Send "OK" (VArr [item])].
Proof.
  intros error item more ctx before Herror Hmore.
  unfold closed_with, fresh. js_unfold.
  rewrite Herror, Hmore. cbn. now rewrite app_two.
Qed.

(** C4. The invocations [(null, 'a', true)], [(null, 'b', true)],
    [(null, undefined, false)] make the channel send STREAM 'a', STREAM 'b'
    and STREAM_DONE with an empty array, in this order, and close.  In
    general an invocation that is not the first one on an open channel, with
    no error, a false [more] and an undefined [item], sends one STREAM_DONE
    frame with an empty array and closes the channel. *)
Theorem stream_then_done :
  (forall (ctx : obj) (before : list effect),
     let st := invoke_all
                 [ (VNull, VStr "a", VBool true);
                   (VNull, VStr "b", VBool true);
                   (VNull, VUndefined, VBool false) ]
                 (fresh ctx before) in
     trace st
     = (before ++ [ Send "STREAM" (VStr "a"); Send "STREAM" (VStr "b");
                    Send "STREAM_DONE" (VArr []); Close ])%list
     /\ finished st = true)
  /\
  (forall (st : call) (error more : value),
     finished st = false ->
     isFirst st = false ->
     truthy error = false ->
     truthy more = false ->
     result error VUndefined more st
     = closed_with st [Send "STREAM_DONE" (VArr [])]).
Proof.
  split.
  - intros ctx before. cbn. split; [| reflexivity].
    now rewrite <- !app_assoc.
  - intros [first fin ctx tr] error more Hfin Hfirst Herror Hmore.
    cbn in Hfin, Hfirst. subst first fin.
    unfold closed_with. js_unfold.
    rewrite Herror, Hmore. cbn. now rewrite app_two.
Qed.

(** C5. On a channel that is not finished, an invocation whose [error] is
    set sends one ERR frame and closes, whatever [more] and [item] are.  The
    payload is the triple of type, message and stack; the type is "Error"
    when the error has none, and a plain string gives "Error", the string
    and the stack. *)
Theorem error_reply_is_single_ERR :
  forall (st : call) (error item more : value),
    finished st = false ->
    truthy error = true ->
    result error item more st = closed_with st [Send "ERR" (ERR_args error)]
    /\ (forall s, error = VStr s ->
          ERR_args error = VArr [VStr "Error"; VStr s; stack_of s])
    /\ (typeof error <> "string" ->
        exists type,
          ERR_args error
          = VArr [type; prop error "message"; prop error "stack"]
          /\ (prop error "type" = VUndefined -> type = VStr "Error")
          /\ (truthy (prop error "type") = true -> type = prop error "type")).
Proof.
  intros [first fin ctx tr] error item more Hfin Herror.
  cbn in Hfin. subst fin.
  split; [| split].
  - unfold closed_with. js_unfold. rewrite Herror.
    destruct error; cbn; now rewrite app_two.
  - intros s ->. reflexivity.
  - intros Hnot.
    exists (or_else (prop error "type") (VStr "Error")).
    split; [| split].
    + destruct error; try reflexivity. now elim Hnot.
    + intros ->. reflexivity.
    + intros Htype. unfold or_else. now rewrite Htype.
Qed.

(** C6. Once [finished] is true every invocation throws; it sends nothing
    and leaves every variable of the call as it was. *)
Theorem result_after_finish_throws :
  forall (st : call) (error item more : value),
    finished st = true ->
    result error item more st
    = (Throw (Error "Result callback called after the channel was closed"),
       st).
Proof.
  intros [first fin ctx tr] error item more Hfin.
  cbn in Hfin. subst fin. reflexivity.
Qed.

(** C10. On a channel that is not finished, an invocation with no error, a
    true [more] and a null or undefined [item] sends no frame and leaves the
    channel open. *)
Theorem nullish_item_is_skipped :
  forall (st : call) (error item more : value),
    finished st = false ->
    truthy error = false ->
    truthy more = true ->
    item = VNull \/ item = VUndefined ->
    result error item more st
    = (Normal tt,
       {| isFirst := false; finished := false;
          context := context st; trace := trace st |}).
Proof.
  intros [first fin ctx tr] error item more Hfin Herror Hmore Hitem.
  cbn in Hfin. subst fin. js_unfold.
  rewrite Herror, Hmore, andb_false_r.
  destruct Hitem; subst item; reflexivity.
Qed.

(** *** At most one terminal frame, and it comes last *)

Lemma quiet_app (l1 l2 : list effect) : quiet l1 -> quiet l2 -> quiet (l1 ++ l2).
Proof. intros H1 H2. apply Forall_app. now split. Qed.

Lemma quiet_filter (l : list effect) : quiet l -> filter terminal l = [].
Proof.
  induction 1 as [| e l He _ IH]; cbn; [reflexivity |].
  now rewrite He.
Qed.

Lemma quiet_no_terminal (pre post : list effect) (e : effect) :
  quiet (pre ++ e :: post) -> terminal e = true -> False.
Proof.
  intros H He. apply Forall_app in H as [_ H].
  inversion H; subst. congruence.
Qed.

Lemma terminal_position (p r pre post : list effect) (e0 e : effect) :
  quiet p -> quiet r -> terminal e = true ->
  (p ++ e0 :: r = pre ++ e :: post)%list ->
  pre = p /\ e = e0 /\ post = r.
Proof.
  intros Hp Hr He. revert pre.
  induction Hp as [| a p Ha _ IH]; intros [| x pre] Heq; cbn in Heq.
  - injection Heq as -> ->. auto.
  - injection Heq as -> ->. exfalso. eapply quiet_no_terminal; eauto.
  - injection Heq as -> _. congruence.
  - injection Heq as -> Heq. destruct (IH _ Heq) as (-> & -> & ->). auto.
Qed.

Lemma shape_count (fin : bool) (tr : list effect) :
  shape fin tr -> (length (filter terminal tr) <= 1)%nat.
Proof.
  destruct fin; cbn.
  - intros (pre & Hpre & [-> | (e & He & ->)]);
      rewrite filter_app, (quiet_filter _ Hpre); cbn.
    + lia.
    + rewrite He. cbn. lia.
  - intros H. rewrite (quiet_filter _ H). cbn. lia.
Qed.

Lemma shape_last (fin : bool) (tr pre post : list effect) (e : effect) :
  shape fin tr -> tr = (pre ++ e :: post)%list -> terminal e = true ->
  post = [Close] /\ fin = true.
Proof.
  destruct fin; cbn.
  - intros (p & Hp & [-> | (e0 & He0 & ->)]) Heq He.
    + exfalso. apply (quiet_no_terminal pre post e); [| exact He].
      rewrite <- Heq. apply quiet_app; [exact Hp |].
      repeat constructor.
    + split; [| reflexivity].
      assert (Hr : quiet [Close]) by (repeat constructor).
      now destruct (terminal_position _ _ _ _ _ _ Hp Hr He Heq) as (_ & _ & ->).
  - intros H -> He. exfalso. eapply quiet_no_terminal; eauto.
Qed.

(** One invocation keeps the shape. *)
Lemma invoke_shape (st : call) (i : invocation) :
  shape (finished st) (trace st) ->
  shape (finished (invoke st i)) (trace (invoke st i)).
Proof.
  destruct st as [first fin ctx tr], i as [[error item] more].
  unfold invoke. js_unfold.
  destruct fin; [intros H; exact H |].
  cbn. intros Hq.
  assert (Hsend : forall k p, terminal (Send k p) = false ->
                              quiet (tr ++ [Send k p])).
  { intros k p Hk. apply quiet_app; [exact Hq |]. now repeat constructor. }
  destruct (truthy error).
  - cbn. exists tr. split; [exact Hq |]. right.
    eexists. split; [| apply app_two]. reflexivity.
  - destruct first, (truthy more), (neq_undefined item); cbn;
      try exact Hq; try (apply Hsend; reflexivity).
    + exists tr. split; [exact Hq |]. right.
      eexists. split; [| apply app_two]. reflexivity.
    + exists tr. split; [exact Hq |]. right.
      eexists. split; [| apply app_two]. reflexivity.
    + exists (tr ++ [Send "STREAM" item; Send "STREAM_DONE" (VArr [])])%list.
      split.
      * apply quiet_app; [exact Hq |]. now repeat constructor.
      * left. now rewrite <- !app_assoc.
    + exists (tr ++ [Send "STREAM_DONE" (VArr [])])%list.
      split; [apply Hsend; reflexivity |]. now left.
Qed.

Lemma invoke_all_shape (calls : list invocation) (st : call) :
  shape (finished st) (trace st) ->
  shape (finished (invoke_all calls st)) (trace (invoke_all calls st)).
Proof.
  revert st. induction calls as [| i calls IH]; intros st H; cbn.
  - exact H.
  - apply IH, invoke_shape, H.
Qed.

(** C2. Whatever invocations a method makes on its channel, the channel
    sends at most one OK or ERR frame, and when it sends one, that frame is
    the last one: only the close of the channel follows it. *)
Theorem terminal_frame_once_and_last :
  forall (calls : list invocation) (ctx : obj) (before : list effect),
    quiet before ->
    let st := invoke_all calls (fresh ctx before) in
    (length (filter terminal (trace st)) <= 1)%nat
    /\ (forall pre e post,
          trace st = (pre ++ e :: post)%list ->
          terminal e = true ->
          post = [Close] /\ finished st = true).
Proof.
  intros calls ctx before Hbefore st.
  assert (H : shape (finished st) (trace st))
    by (apply invoke_all_shape; exact Hbefore).
  split.
  - exact (shape_count _ _ H).
  - intros pre e post Heq He. exact (shape_last _ _ _ _ _ H Heq He).
Qed.

(** ** Dispatch *)


(** *** The registry *)

Lemma own_set (o : obj) (k k' : string) (v : value) :
  own (set o k v) k' = if String.eqb k k' then Some v else own o k'.
Proof.
  induction o as [| [k0 v0] o IH]; cbn.
  - reflexivity.
  - destruct (String.eqb_spec k0 k) as [-> | Hk0]; cbn.
    + now destruct (String.eqb k k').
    + rewrite IH.
      destruct (String.eqb_spec k0 k') as [-> | Hk0']; [| reflexivity].
      destruct (String.eqb_spec k k') as [-> | _]; [now elim Hk0 | reflexivity].
Qed.

Lemma registered_set (o : obj) (k k' : string) (v : value) :
  registered (set o k v) k' = String.eqb k k' || registered o k'.
Proof.
  unfold registered. rewrite own_set. now destruct (String.eqb k k').
Qed.

Lemma mem_cons (k k0 : string) (l : list string) :
  mem k (k0 :: l) = String.eqb k0 k || mem k l.
Proof. unfold mem. cbn. now rewrite String.eqb_sym. Qed.

Lemma registered_fold (ctx : obj) (names : list string) (acc : obj) (k : string) :
  registered
    (fold_left
       (fun methods name =>
          if negb (underscore name)
             && String.eqb (typeof (get ctx name)) "function"
          then set methods name (VBool true)
          else methods)
       names acc) k
  = registered acc k || (mem k names && public ctx k).
Proof.
  revert acc. induction names as [| n names IH]; intros acc; cbn [fold_left].
  - cbn. now rewrite orb_false_r.
  - rewrite IH, mem_cons. fold (public ctx n).
    destruct (public ctx n) eqn:Hn.
    + rewrite registered_set.
      destruct (String.eqb_spec n k) as [-> | _]; cbn.
      * rewrite Hn. now rewrite orb_true_r.
      * reflexivity.
    + destruct (String.eqb_spec n k) as [-> | _]; cbn; [| reflexivity].
      rewrite Hn. now rewrite !andb_false_r.
Qed.

(** The registry holds the enumerated members that are functions and do not
    start with an underscore, and [_zerorpc_inspect]. *)
Lemma registry_exact (ctx methods ctx' : obj) (k : string) :
  publicMethods ctx = Some (methods, ctx') ->
  registered methods k
  = String.eqb "_zerorpc_inspect" k || (mem k (keys ctx) && public ctx k).
Proof.
  unfold publicMethods.
  destruct (inspect ctx (keys (collect ctx))); [| discriminate].
  intros [= <- _]. rewrite registered_set. unfold collect.
  now rewrite registered_fold.
Qed.

(** A name that is neither registered nor a member of [Object.prototype]
    is dropped. *)
Lemma unknown_name_dropped (self : server) (ctx : obj) (ev : event) :
  registered (methods self) (name ev) = false ->
  mem (name ev) Object_prototype = false ->
  receive self ctx ev = None.
Proof.
  unfold receive, has, registered.
  destruct (own (methods self) (name ev)); [discriminate |].
  now intros _ ->.
Qed.

(** C8, at a request named [toString]: the name is not registered, and yet
    the listener opens a channel, attaches a heartbeat and applies the
    inherited [Object.prototype.toString]; when the context has a member of
    that name that is no function, the call throws after the channel has
    been opened.  In both cases the channel is left open. *)
Theorem inherited_name_not_dropped :
  let ev := {| name := "toString"; args := VArr [] |} in
  (exists self ctx',
     Server [] VUndefined = Some (self, ctx')
     /\ registered (methods self) "toString" = false
     /\ receive self ctx' ev
        = Some (Normal tt,
                {| isFirst := true; finished := false; context := ctx';
                   trace := [ OpenChannel ev; AddHeartbeat (VNum 5000);
                              Apply (VNative "toString") [VResult] ] |}))
  /\
  (exists self ctx',
     Server [("toString", VNum 42)] VUndefined = Some (self, ctx')
     /\ registered (methods self) "toString" = false
     /\ receive self ctx' ev
        = Some (Throw TypeError,
                {| isFirst := true; finished := false; context := ctx';
                   trace := [ OpenChannel ev; AddHeartbeat (VNum 5000) ] |})).
Proof.
  cbn zeta. split; eexists; eexists; repeat split; reflexivity.
Qed.

(** *** The manifest *)

(** Every manifest entry is the method's name with ["self"] followed by the
    parameter names that [shift] leaves, that is all but the first. *)
Lemma inspect_entries (ctx : obj) (names : list string) (inspected : list value) :
  inspect ctx names = Some inspected ->
  Forall2
    (fun n e =>
       exists params,
         getArguments (toString (get ctx n)) = Some params
         /\ e = entry n ("self" :: tl params))
    names inspected.
Proof.
  revert inspected. induction names as [| n names IH]; intros inspected; cbn.
  - intros [= <-]. constructor.
  - destruct (getArguments (toString (get ctx n))) as [params |] eqn:Hargs;
      [| discriminate].
    destruct (inspect ctx names) as [more |]; [| discriminate].
    intros [= <-]. constructor.
    + exists params. now split.
    + now apply IH.
Qed.

(** A method declared with plain identifiers gets the entry made of its
    declared names without the first one. *)
Lemma declared_method_entry
  (ctx : obj) (names : list string) (inspected : list value)
  (n fname body : string) (params : list string) :
  inspect ctx names = Some inspected ->
  In n names ->
  get ctx n = VFun (declaration fname params body) ->
  all (fun c => negb (Re.is_char "(" c)) fname = true ->
  forallb identifier params = true ->
  In (entry n ("self" :: tl params)) inspected.
Proof.
  intros Hinspect Hn Hget Hname Hparams.
  apply inspect_entries in Hinspect.
  induction Hinspect as [| n0 e names inspected (ps & Hps & ->) _ IH].
  - contradiction.
  - destruct Hn as [-> | Hn]; [left | right; now apply IH].
    rewrite Hget in Hps. cbn [toString] in Hps.
    rewrite (getArguments_declaration _ _ _ Hname Hparams) in Hps.
    now injection Hps as <-.
Qed.

(** Dropping the first name and dropping the last name of a parameter list
    give different lists as soon as there are two distinct parameters. *)
Lemma shift_is_not_removelast (params : list string) :
  NoDup params -> (2 <= length params)%nat ->
  shift params <> removelast params.
Proof.
  destruct params as [| a [| b params]]; cbn; try lia.
  intros Hdup _ [= Hab _].
  inversion Hdup as [| ? ? Ha _]; subst. apply Ha. now left.
Qed.

(** C1, at a context whose method [add] declares the parameters [a], [b] and
    [cb]: the call path appends the result callback after the request's
    arguments, so it is [cb], the last parameter, that receives it; the
    manifest entry nevertheless lists ["self"; "b"; "cb"], the declared
    names without the first one, and not ["self"; "a"; "b"]. *)
Theorem manifest_drops_first_parameter :
  let src := "function (a, b, cb) { cb(null, a + b); }" in
  let ctx := [("add", VFun src)] in
  getArguments src = Some ["a"; "b"; "cb"]
  /\ manifest ctx = Some (VArr [entry "add" ["self"; "b"; "cb"]])
  /\ entry "add" ["self"; "b"; "cb"]
     <> entry "add" ("self" :: removelast ["a"; "b"; "cb"])
  /\ exists self ctx',
       Server ctx VUndefined = Some (self, ctx')
       /\ effects (receive self ctx'
                     {| name := "add"; args := VArr [VNum 1; VNum 2] |})
          = [ OpenChannel {| name := "add"; args := VArr [VNum 1; VNum 2] |};
              AddHeartbeat (VNum 5000);
              Apply (VFun src) [VNum 1; VNum 2; VResult] ].
Proof.
  cbn zeta. repeat split.
  - discriminate.
  - eexists. eexists. split; reflexivity.
Qed.

(** *** The context *)

Lemma others_set (o : obj) (v : value) :
  others (set o "_zerorpc_inspect" v) = others o.
Proof.
  unfold others. induction o as [| [k0 v0] o IH]; cbn.
  - reflexivity.
  - destruct (String.eqb k0 "_zerorpc_inspect") eqn:Hk; cbn; rewrite Hk; cbn.
    + reflexivity.
    + now rewrite IH.
Qed.

Lemma result_context (st : call) (error item more : value) :
  context (snd (result error item more st)) = context st.
Proof.
  destruct st as [first fin ctx tr]. js_unfold.
  destruct fin; [reflexivity |].
  destruct (truthy error); [reflexivity |].
  destruct first, (truthy more), (neq_undefined item); reflexivity.
Qed.

Lemma recv_context (self : server) (ev : event) (hb : value) (ctx : obj) :
  context (snd (_recv self ev hb ctx)) = ctx.
Proof.
  unfold _recv. js_unfold.
  destruct (args ev); try (now destruct (error_listeners self)).
  cbn. destruct (get ctx (name ev)); try reflexivity.
  destruct (hd VUndefined (items ++ [VResult])%list); reflexivity.
Qed.

(** C9 as stated fails: constructing a server on a context without a member
    [_zerorpc_inspect] adds that member to the context. *)
Lemma construction_adds_a_member :
  let ctx := [("ping", VFun "function (cb) { cb(null, 1); }")] in
  exists self ctx',
    Server ctx VUndefined = Some (self, ctx')
    /\ own ctx "_zerorpc_inspect" = None
    /\ own ctx' "_zerorpc_inspect"
       = Some (VInspect
                 (VObj [("methods", VArr [entry "ping" ["self"]])]))
    /\ ctx' <> ctx.
Proof.
  cbn zeta. eexists. eexists. repeat split. discriminate.
Qed.

(** C9, amended. Constructing a server assigns the member
    [_zerorpc_inspect] of the context, the injected introspector, and
    touches no other member: the remaining members, their values and their
    order are as before.  The dispatch of a request whose name is a key of
    the registry does not assign to the context before the named member
    gets control, and an invocation of the result callback never does. *)
Theorem construction_only_injects_introspector :
  forall (ctx : obj) (options : value) (self : server) (ctx' : obj),
    Server ctx options = Some (self, ctx') ->
    (exists out, own ctx' "_zerorpc_inspect" = Some (VInspect out))
    /\ others ctx' = others ctx
    /\ (forall ev r st,
          registered (methods self) (name ev) = true ->
          receive self ctx' ev = Some (r, st) -> context st = ctx')
    /\ (forall st i, context (invoke st i) = context st).
Proof.
  intros ctx options self ctx'. unfold Server, publicMethods.
  destruct (inspect ctx (keys (collect ctx))) as [inspected |]; [| discriminate].
  intros [= <- <-]. repeat split.
  - eexists. rewrite own_set. reflexivity.
  - apply others_set.
  - intros ev r st _. unfold receive.
    destruct (has _ _); [| discriminate].
    intros [= H].
    match type of H with
    | _recv ?s ?e ?hb ?c = _ => pose proof (recv_context s e hb c) as Hctx
    end.
    now rewrite H in Hctx.
  - intros st [[error item] more]. apply result_context.
Qed.

(** ** Further properties of [getArguments] *)

Lemma span_spec (p : ascii -> bool) (s : string) :
  s = fst (Re.span p s) ++ snd (Re.span p s)
  /\ all p (fst (Re.span p s)) = true
  /\ Re.span p (snd (Re.span p s)) = (EmptyString, snd (Re.span p s)).
Proof.
  induction s as [| c s IH]; cbn.
  - auto.
  - destruct (p c) eqn:Hc.
    + destruct (Re.span p s) as [a b]. cbn in *.
      destruct IH as (-> & Ha & Hb). now rewrite Hc, Ha.
    + cbn. now rewrite Hc.
Qed.

Lemma span_stops (p : ascii -> bool) (c : ascii) (s : string) :
  Re.span p (String c s) = (EmptyString, String c s) -> p c = false.
Proof.
  cbn. destruct (p c); [| reflexivity].
  destruct (Re.span p s). discriminate.
Qed.

Lemma literal_spec (lit s r : string) :
  Re.literal lit s = Some r <-> s = lit ++ r.
Proof.
  revert s. induction lit as [| a lit IH]; intros s; cbn.
  - split; [now intros [= ->] | now intros ->].
  - destruct s as [| c s]; [split; discriminate |].
    destruct (Ascii.eqb_spec a c) as [-> | Hac].
    + rewrite IH. split; [now intros -> | now intros [= ->]].
    + split; [discriminate | intros [= Heq _]; now elim Hac].
Qed.

Lemma negb_is_char_stop (a c : ascii) :
  negb (Re.is_char a c) = false -> c = a.
Proof.
  unfold Re.is_char. destruct (Ascii.eqb_spec a c); [auto | discriminate].
Qed.

(** [m1] succeeds with the group [g] exactly on the texts of that shape. *)
Lemma m1_matches (s g : string) : Re.m1 s = Some g <-> m1_shape s g.
Proof.
  split.
  - unfold Re.m1.
    destruct (span_spec (fun c => Re.is_space c || Re.is_char "(" c) s)
      as (Hs & Hlead & _).
    destruct (Re.span _ s) as [lead s1]. cbn [fst snd] in *.
    destruct (Re.literal "function" s1) as [s2 |] eqn:Hlit; [| discriminate].
    apply literal_spec in Hlit.
    destruct (span_spec (fun c => negb (Re.is_char "(" c)) s2)
      as (Hs2 & Hmid & Hstop).
    destruct (Re.span _ s2) as [mid s3]. cbn [fst snd] in *.
    destruct s3 as [| c3 s4]; [discriminate |].
    apply span_stops, negb_is_char_stop in Hstop. subst c3.
    destruct (span_spec (fun c => negb (Re.is_char ")" c)) s4)
      as (Hs4 & Hgroup & Hstop).
    destruct (Re.span _ s4) as [group s5]. cbn [fst snd] in *.
    destruct s5 as [| c5 tail]; [discriminate |].
    apply span_stops, negb_is_char_stop in Hstop. subst c5.
    intros [= <-]. exists lead, mid, tail.
    repeat split; try assumption.
    now rewrite Hs, Hlit, Hs2, Hs4.
  - intros (lead & mid & tail & -> & Hlead & Hmid & Hg).
    unfold Re.m1.
    rewrite (span_app _ lead _ Hlead) by reflexivity.
    cbv beta iota.
    rewrite (proj2 (literal_spec "function" _ _) eq_refl).
    rewrite (span_app _ mid _ Hmid) by reflexivity.
    cbv beta iota.
    change ("(" ++ g ++ ")" ++ tail) with (String "(" (g ++ ")" ++ tail)).
    cbv beta iota.
    rewrite (span_app _ g _ Hg) by reflexivity.
    reflexivity.
Qed.

(** X2. [getArguments] throws (the TypeError of reading [1] of null)
    exactly when the source text is not of the shape that [m1] describes:
    optional white space and opening parentheses, the word function, an
    opening parenthesis later on and a closing one after it. *)
Theorem getArguments_throws_iff_no_match :
  forall src : string,
    getArguments src = None <-> ~ (exists g, m1_shape src g).
Proof.
  intros src. unfold getArguments. split.
  - destruct (Re.m1 src) eqn:Hm1; [discriminate |].
    intros _ [g Hg]. apply m1_matches in Hg. congruence.
  - intros Hno. destruct (Re.m1 src) as [g |] eqn:Hm1; [| reflexivity].
    apply m1_matches in Hm1. elim Hno. now exists g.
Qed.

Lemma strip_Code_eq (c1 c2 : ascii) (r : string) :
  Re.strip Re.Code (String c1 (String c2 r))
  = if Re.is_char "/" c1 && Re.is_char "/" c2 && Re.has_eol r
    then Re.strip Re.Line r
    else if Re.is_char "/" c1 && Re.is_char "*" c2 && Re.has_close r
         then Re.strip Re.Block r
         else String c1 (Re.strip Re.Code (String c2 r)).
Proof. reflexivity. Qed.

Lemma strip_Line_eq (c : ascii) (r : string) :
  Re.strip Re.Line (String c r)
  = if Re.is_eol c then Re.strip Re.Code r else Re.strip Re.Line r.
Proof. reflexivity. Qed.

Lemma strip_Block_eq (c1 c2 : ascii) (r : string) :
  Re.strip Re.Block (String c1 (String c2 r))
  = if Re.is_char "*" c1 && Re.is_char "/" c2
    then Re.strip Re.Code r
    else Re.strip Re.Block (String c2 r).
Proof. reflexivity. Qed.

Lemma all_strip_step (p : ascii -> bool) (s : string) :
  (forall m, all p s = true -> all p (Re.strip m s) = true)
  /\ (forall c m, all p (String c s) = true ->
                  all p (Re.strip m (String c s)) = true).
Proof.
  induction s as [| a s [IHa IHb]].
  - split; [intros m _; reflexivity |].
    intros c [] H; cbn in *; trivial. now destruct (Re.is_eol c).
  - split; [exact (IHb a) |].
    intros c m H.
    assert (Hc : p c = true) by (cbn in H; now apply andb_true_iff in H).
    assert (Hrest : all p (String a s) = true)
      by (cbn in H; now apply andb_true_iff in H).
    assert (Hs : all p s = true)
      by (cbn in Hrest; now apply andb_true_iff in Hrest).
    destruct m.
    + rewrite strip_Code_eq.
      destruct (_ && _ && Re.has_eol s); [now apply IHa |].
      destruct (_ && _ && Re.has_close s); [now apply IHa |].
      cbn [all]. rewrite Hc. now apply IHb.
    + rewrite strip_Line_eq. destruct (Re.is_eol c); now apply IHb.
    + rewrite strip_Block_eq. destruct (_ && _); [now apply IHa | now apply IHb].
Qed.

Lemma all_strip (p : ascii -> bool) (m : Re.mode) (s : string) :
  all p s = true -> all p (Re.strip m s) = true.
Proof. apply all_strip_step. Qed.

Lemma all_m3_removed (p : ascii -> bool) (s : string) :
  all p s = true -> all p (Re.m3_removed s) = true.
Proof.
  induction s as [| c s IH]; cbn; [reflexivity |].
  intros [Hc Hs]%andb_true_iff.
  destruct (Re.is_space c); cbn; [| rewrite Hc]; now apply IH.
Qed.

Lemma m3_removed_no_space (s : string) :
  all (fun c => negb (Re.is_space c)) (Re.m3_removed s) = true.
Proof.
  induction s as [| c s IH]; cbn; [reflexivity |].
  destruct (Re.is_space c) eqn:Hc; cbn; [| rewrite Hc]; exact IH.
Qed.

Lemma split_comma_pieces (p : ascii -> bool) (s : string) :
  all p s = true ->
  Forall (fun n => all (fun c => p c && negb (Re.is_char "," c)) n = true)
    (Re.split_comma s).
Proof.
  induction s as [| c s IH]; cbn [Re.split_comma all].
  - intros _. now repeat constructor.
  - intros [Hc Hs]%andb_true_iff. specialize (IH Hs).
    destruct (Re.is_char "," c) eqn:Hcomma.
    + constructor; [reflexivity | exact IH].
    + destruct (Re.split_comma s) as [| piece more].
      * repeat constructor. cbn [all]. now rewrite Hc, Hcomma.
      * inversion IH as [| ? ? Hpiece Hmore]; subst.
        constructor; [| exact Hmore].
        cbn [all]. now rewrite Hc, Hcomma, Hpiece.
Qed.

(** X3. Whatever the source text, the names [getArguments] returns contain
    no white space, no comma and no closing parenthesis, and the result is
    never the list of one empty name. *)
Theorem getArguments_names_have_no_separator :
  forall (src : string) (names : list string),
    getArguments src = Some names ->
    Forall (fun n => all (fun c => negb (separator c)) n = true) names
    /\ names <> [EmptyString].
Proof.
  intros src names. unfold getArguments.
  destruct (Re.m1 src) as [g |] eqn:Hm1; [| discriminate].
  apply m1_matches in Hm1 as (_ & _ & _ & _ & _ & _ & Hg).
  set (text := Re.m3_removed (Re.m2_removed g)).
  assert (Htext : all (fun c => negb (Re.is_char ")" c)
                                && negb (Re.is_space c)) text = true).
  { subst text. generalize (Re.m2_removed g),
      (all_strip _ Re.Code g Hg : all _ (Re.m2_removed g) = true).
    intros s Hs. pose proof (all_m3_removed _ _ Hs) as H1.
    pose proof (m3_removed_no_space s) as H2.
    revert H1 H2. generalize (Re.m3_removed s). intros t.
    induction t as [| c t IH]; cbn; [reflexivity |].
    intros [-> H1]%andb_true_iff [-> H2]%andb_true_iff. now apply IH. }
  assert (Hclean : Forall (fun n => all (fun c => negb (separator c)) n = true)
                     (Re.split_comma text)).
  { eapply Forall_impl; [| apply (split_comma_pieces _ _ Htext)].
    intros n Hn. eapply all_impl; [| exact Hn].
    intros c. unfold separator.
    destruct (Re.is_space c), (Re.is_char "," c), (Re.is_char ")" c);
      cbn; congruence. }
  intros [= <-].
  destruct (Re.split_comma text) as [| first [| second more]].
  - split; [constructor | discriminate].
  - destruct first; cbn; split;
      [constructor | discriminate | exact Hclean | discriminate].
  - split; [exact Hclean | discriminate].
Qed.

(** *** Comments inside the parameter list *)

Lemma has_close_eq (c1 c2 : ascii) (r : string) :
  Re.has_close (String c1 (String c2 r))
  = (Re.is_char "*" c1 && Re.is_char "/" c2) || Re.has_close (String c2 r).
Proof. reflexivity. Qed.

Lemma has_close_app (c b : string) : Re.has_close (c ++ "*/" ++ b) = true.
Proof.
  induction c as [| x c IH]; [reflexivity |].
  destruct c as [| y c]; cbn [append] in *;
    rewrite has_close_eq, IH; apply orb_true_r.
Qed.

Lemma has_eol_app (c b : string) (nl : ascii) :
  Re.is_eol nl = true -> Re.has_eol (c ++ String nl b) = true.
Proof.
  intros Hnl. induction c as [| x c IH]; cbn [append Re.has_eol].
  - now rewrite Hnl.
  - rewrite IH. apply orb_true_r.
Qed.

Lemma has_close_no_slash (s : string) :
  all (fun c => negb (Re.is_char "/" c)) s = true -> Re.has_close s = false.
Proof.
  induction s as [| x s IH]; [reflexivity |].
  cbn [all]. intros [_ Hs]%andb_true_iff.
  destruct s as [| y s]; [reflexivity |].
  rewrite has_close_eq, (IH Hs).
  cbn [all] in Hs. apply andb_true_iff in Hs as [Hy _].
  apply negb_true_iff in Hy. rewrite Hy. now rewrite andb_false_r.
Qed.

Lemma strip_Block_close (c b : string) :
  Re.has_close c = false ->
  Re.strip Re.Block (c ++ "*/" ++ b) = Re.strip Re.Code b.
Proof.
  induction c as [| x c IH]; [reflexivity |].
  intros Hc. destruct c as [| y c]; cbn [append] in *.
  - rewrite strip_Block_eq.
    replace (Re.is_char "*" x && Re.is_char "/" "*") with false
      by (now rewrite andb_false_r).
    now apply IH.
  - rewrite has_close_eq in Hc. apply orb_false_iff in Hc as [Hxy Hc].
    rewrite strip_Block_eq, Hxy. now apply IH.
Qed.

Lemma strip_Line_end (c b : string) (nl : ascii) :
  Re.has_eol c = false -> Re.is_eol nl = true ->
  Re.strip Re.Line (c ++ String nl b) = Re.strip Re.Code b.
Proof.
  intros Hc Hnl. induction c as [| x c IH]; cbn [append].
  - now rewrite strip_Line_eq, Hnl.
  - cbn [Re.has_eol] in Hc. apply orb_false_iff in Hc as [Hx Hc].
    rewrite strip_Line_eq, Hx. now apply IH.
Qed.

Lemma strip_Code_plain (a s : string) :
  all (fun c => negb (Re.is_char "/" c)) a = true ->
  Re.strip Re.Code (a ++ s) = a ++ Re.strip Re.Code s.
Proof.
  induction a as [| x a IH]; [reflexivity |].
  cbn [all append]. intros [Hx Ha]%andb_true_iff.
  apply negb_true_iff in Hx. specialize (IH Ha).
  destruct (a ++ s) as [| y r] eqn:E.
  - rewrite <- IH. reflexivity.
  - rewrite strip_Code_eq, Hx. cbn [andb]. now rewrite IH.
Qed.

Lemma m2_block_comment (a c b : string) :
  all (fun c => negb (Re.is_char "/" c)) a = true ->
  Re.has_close c = false ->
  Re.m2_removed (a ++ "/*" ++ c ++ "*/" ++ b) = a ++ Re.m2_removed b.
Proof.
  intros Ha Hc. unfold Re.m2_removed.
  rewrite (strip_Code_plain _ _ Ha). f_equal.
  change ("/*" ++ c ++ "*/" ++ b)
    with (String "/" (String "*" (c ++ "*/" ++ b))).
  rewrite strip_Code_eq, has_close_app. cbn [andb Re.is_char Ascii.eqb].
  replace (Re.is_char "/" "/" && Re.is_char "/" "*"
           && Re.has_eol (c ++ "*/" ++ b)) with false by reflexivity.
  replace (Re.is_char "/" "/" && Re.is_char "*" "*" && true) with true
    by reflexivity.
  now apply strip_Block_close.
Qed.

Lemma m2_line_comment (a c b : string) (nl : ascii) :
  all (fun c => negb (Re.is_char "/" c)) a = true ->
  Re.has_eol c = false -> Re.is_eol nl = true ->
  Re.m2_removed (a ++ "//" ++ c ++ String nl b) = a ++ Re.m2_removed b.
Proof.
  intros Ha Hc Hnl. unfold Re.m2_removed.
  rewrite (strip_Code_plain _ _ Ha). f_equal.
  change ("//" ++ c ++ String nl b)
    with (String "/" (String "/" (c ++ String nl b))).
  rewrite strip_Code_eq, (has_eol_app _ _ _ Hnl).
  replace (Re.is_char "/" "/" && Re.is_char "/" "/" && true) with true
    by reflexivity.
  now apply strip_Line_end.
Qed.

Lemma m2_open_line_comment (a c : string) :
  all (fun c => negb (Re.is_char "/" c)) a = true ->
  all (fun c => negb (Re.is_char "/" c)) c = true ->
  Re.has_eol c = false ->
  Re.m2_removed (a ++ "//" ++ c) = a ++ "//" ++ c.
Proof.
  intros Ha Hc Heol. unfold Re.m2_removed.
  rewrite (strip_Code_plain _ _ Ha). f_equal.
  change ("//" ++ c) with (String "/" (String "/" c)).
  rewrite strip_Code_eq, Heol, andb_false_r.
  replace (Re.is_char "/" "/" && Re.is_char "*" "/" && Re.has_close c)
    with false by reflexivity.
  f_equal. destruct c as [| y r]; [reflexivity |].
  rewrite strip_Code_eq.
  cbn [all] in Hc. apply andb_true_iff in Hc as [Hy Hr].
  apply negb_true_iff in Hy.
  rewrite Hy, !andb_false_r. cbn [andb].
  rewrite (has_close_no_slash _ Hr), andb_false_r.
  f_equal. apply strip_no_slash. cbn [all]. now rewrite Hy, Hr.
Qed.

(** *** Declared parameter lists in any layout *)

Lemma space_plain (c : ascii) :
  Re.is_space c = true ->
  Re.is_char ")" c = false /\ Re.is_char "," c = false
  /\ Re.is_char "/" c = false.
Proof.
  destruct c as [[] [] [] [] [] [] [] []]; cbn; intros H;
    try discriminate H; repeat split.
Qed.

Lemma forallb_mapped {A B} (f : B -> bool) (g : A -> B) (l : list A) :
  forallb f (map g l) = forallb (fun x => f (g x)) l.
Proof. induction l as [| a l IH]; cbn; [reflexivity | now rewrite IH]. Qed.

Lemma written_parts (w : written) :
  written_ok w = true ->
  all Re.is_space (pad_left w) = true
  /\ all ident_char (param w) = true /\ param w <> EmptyString
  /\ all Re.is_space (pad_right w) = true.
Proof.
  unfold written_ok, blank.
  intros [[Hl Hp]%andb_true_iff Hr]%andb_true_iff.
  repeat split; try assumption.
  - now apply identifier_all.
  - intros E. rewrite E in Hp. discriminate Hp.
Qed.

(** The written parameters hold none of the characters [f] stands for, as
    soon as no identifier character, no white space and no comma is one. *)
Lemma list_text_plain (f : ascii -> bool) (gap : string) (ws : list written) :
  (forall c, ident_char c = true -> f c = false) ->
  (forall c, Re.is_space c = true -> f c = false) ->
  f ","%char = false ->
  blank gap = true -> forallb written_ok ws = true ->
  all (fun c => negb (f c)) (list_text gap ws) = true.
Proof.
  intros Hid Hsp Hcomma Hgap Hws.
  assert (Hblank : forall s, all Re.is_space s = true ->
                             all (fun c => negb (f c)) s = true).
  { intros s. apply all_impl. intros c Hc. now rewrite (Hsp c Hc). }
  destruct ws as [| w ws]; [now apply Hblank |].
  unfold list_text. apply all_concat.
  - cbn. now rewrite Hcomma.
  - rewrite forallb_mapped. apply (forallb_impl written_ok); [| exact Hws].
    intros x Hx. destruct (written_parts x Hx) as (Hl & Hp & _ & Hr).
    unfold written_text. rewrite !all_app, (Hblank _ Hl), (Hblank _ Hr).
    rewrite (all_impl ident_char (fun c => negb (f c)) (param x)); auto.
    intros c Hc. now rewrite (Hid c Hc).
Qed.

Lemma m3_removed_blank (s : string) :
  all Re.is_space s = true -> Re.m3_removed s = EmptyString.
Proof.
  induction s as [| c s IH]; cbn; [reflexivity |].
  intros [Hc Hs]%andb_true_iff. now rewrite Hc, IH.
Qed.

Lemma m3_removed_written (w : written) :
  written_ok w = true -> Re.m3_removed (written_text w) = param w.
Proof.
  intros Hw. destruct (written_parts w Hw) as (Hl & Hp & _ & Hr).
  unfold written_text.
  rewrite !m3_removed_app, (m3_removed_blank _ Hl), (m3_removed_blank _ Hr).
  rewrite m3_removed_plain.
  - cbn. clear. induction (param w); cbn; congruence.
  - apply (all_impl ident_char); [| exact Hp].
    intros c Hc. now rewrite (proj1 (ident_char_plain c Hc)).
Qed.

Lemma m3_removed_commas (l : list string) :
  Re.m3_removed (String.concat "," l)
  = String.concat "," (map Re.m3_removed l).
Proof.
  induction l as [| x l IH]; [reflexivity |].
  destruct l as [| y l]; [reflexivity |].
  cbn [map] in *. rewrite !concat_cons, !m3_removed_app, IH. reflexivity.
Qed.

Lemma m3_removed_list_text (gap : string) (ws : list written) :
  blank gap = true -> forallb written_ok ws = true ->
  Re.m3_removed (list_text gap ws) = String.concat "," (map param ws).
Proof.
  intros Hgap Hws. destruct ws as [| w ws]; [now apply m3_removed_blank |].
  unfold list_text. rewrite m3_removed_commas, map_map. f_equal.
  apply map_ext_in. intros x Hx. apply m3_removed_written.
  rewrite forallb_forall in Hws. now apply Hws.
Qed.

Lemma params_no_comma (ws : list written) :
  forallb written_ok ws = true ->
  forallb (all (fun c => negb (Re.is_char "," c))) (map param ws) = true.
Proof.
  intros Hws. rewrite forallb_mapped.
  apply (forallb_impl written_ok); [| exact Hws].
  intros x Hx. destruct (written_parts x Hx) as (_ & Hp & _ & _).
  apply (all_impl ident_char); [| exact Hp].
  intros c Hc. now rewrite (proj1 (proj2 (proj2 (proj2 (ident_char_plain c Hc))))).
Qed.

(** The last step of [getArguments] changes nothing unless the list is that
    of one empty name. *)
Lemma names_kept (names : list string) :
  names <> [EmptyString] ->
  match names with
  | [first] => if negb (truthy (VStr first)) then [] else names
  | _ => names
  end = names.
Proof.
  destruct names as [| a [| b r]]; try reflexivity.
  destruct a; [intros H; now elim H | reflexivity].
Qed.

(** What [getArguments] returns once the group between the parentheses,
    with its comments removed, is a written parameter list. *)
Lemma getArguments_general
  (lead mid group tail gap : string) (ws : list written) :
  all (fun c => Re.is_space c || Re.is_char "(" c) lead = true ->
  all (fun c => negb (Re.is_char "(" c)) mid = true ->
  all (fun c => negb (Re.is_char ")" c)) group = true ->
  Re.m2_removed group = list_text gap ws ->
  blank gap = true -> forallb written_ok ws = true ->
  getArguments (function_text lead mid group tail) = Some (map param ws).
Proof.
  intros Hlead Hmid Hgroup Hm2 Hgap Hws.
  assert (Hm1 : Re.m1 (function_text lead mid group tail) = Some group).
  { apply m1_matches. exists lead, mid, tail. now repeat split. }
  unfold getArguments.
  rewrite Hm1, Hm2, (m3_removed_list_text _ _ Hgap Hws).
  destruct ws as [| w ws]; [reflexivity |].
  rewrite split_comma_concat;
    [| discriminate | now apply params_no_comma].
  rewrite names_kept; [reflexivity |].
  cbn [map]. intros [= E _].
  cbn [forallb] in Hws. apply andb_true_iff in Hws as [Hw _].
  now destruct (written_parts w Hw) as (_ & _ & Hne & _).
Qed.

(** X1. For a function whose parameters are plain identifiers, written in
    any layout (any white space around the names and the commas, anything
    without an opening parenthesis between the word function and the
    parameter list, any body), [getArguments] returns the declared parameter
    names in declaration order; without parameters it returns the empty
    list. *)
Theorem getArguments_returns_declared_names :
  forall (lead mid tail gap : string) (ws : list written),
    all (fun c => Re.is_space c || Re.is_char "(" c) lead = true ->
    all (fun c => negb (Re.is_char "(" c)) mid = true ->
    blank gap = true ->
    forallb written_ok ws = true ->
    getArguments (function_text lead mid (list_text gap ws) tail)
    = Some (map param ws).
Proof.
  intros lead mid tail gap ws Hlead Hmid Hgap Hws.
  apply (getArguments_general lead mid _ tail gap ws); try assumption.
  - apply (list_text_plain (Re.is_char ")")); try assumption; try reflexivity.
    + intros c Hc. apply (ident_char_plain c Hc).
    + intros c Hc. apply (space_plain c Hc).
  - unfold Re.m2_removed. apply strip_no_slash.
    apply (list_text_plain (Re.is_char "/")); try assumption; try reflexivity.
    + intros c Hc. apply (ident_char_plain c Hc).
    + intros c Hc. apply (space_plain c Hc).
Qed.

(** The two halves of a written parameter list cut at any place. *)
Lemma list_text_halves (f : ascii -> bool) (gap left right : string)
  (ws : list written) :
  (forall c, ident_char c = true -> f c = false) ->
  (forall c, Re.is_space c = true -> f c = false) ->
  f ","%char = false ->
  blank gap = true -> forallb written_ok ws = true ->
  left ++ right = list_text gap ws ->
  all (fun c => negb (f c)) left = true
  /\ all (fun c => negb (f c)) right = true.
Proof.
  intros Hid Hsp Hcomma Hgap Hws Hcut.
  pose proof (list_text_plain f gap ws Hid Hsp Hcomma Hgap Hws) as H.
  rewrite <- Hcut, all_app in H. now apply andb_true_iff in H.
Qed.

(** X4. A block comment put anywhere into the parameter list of such a
    function is ignored, when the comment's text holds neither the comment
    end nor a closing parenthesis: [getArguments] returns the declared
    names. *)
Theorem getArguments_ignores_block_comment :
  forall (lead mid tail gap left right comment : string) (ws : list written),
    all (fun c => Re.is_space c || Re.is_char "(" c) lead = true ->
    all (fun c => negb (Re.is_char "(" c)) mid = true ->
    blank gap = true ->
    forallb written_ok ws = true ->
    left ++ right = list_text gap ws ->
    Re.has_close comment = false ->
    all (fun c => negb (Re.is_char ")" c)) comment = true ->
    getArguments
      (function_text lead mid (left ++ "/*" ++ comment ++ "*/" ++ right) tail)
    = Some (map param ws).
Proof.
  intros lead mid tail gap left right comment ws
    Hlead Hmid Hgap Hws Hcut Hclose Hcomment.
  destruct (list_text_halves (Re.is_char ")") gap left right ws)
    as [Hl' Hr']; try assumption; try reflexivity;
    try (intros c Hc; first [apply (ident_char_plain c Hc)
                            | apply (space_plain c Hc)]).
  destruct (list_text_halves (Re.is_char "/") gap left right ws)
    as [Hl Hr]; try assumption; try reflexivity;
    try (intros c Hc; first [apply (ident_char_plain c Hc)
                            | apply (space_plain c Hc)]).
  apply (getArguments_general lead mid _ tail gap ws); try assumption.
  - rewrite !all_app, Hl', Hcomment, Hr'. reflexivity.
  - rewrite (m2_block_comment _ _ _ Hl Hclose), <- Hcut.
    unfold Re.m2_removed. now rewrite (strip_no_slash _ Hr).
Qed.

(** X5. A line comment put anywhere into the parameter list of such a
    function and ended by a line feed or a carriage return is ignored, when
    the comment's text holds no closing parenthesis: [getArguments] returns
    the declared names. *)
Theorem getArguments_ignores_line_comment :
  forall (lead mid tail gap left right comment : string) (nl : ascii)
         (ws : list written),
    all (fun c => Re.is_space c || Re.is_char "(" c) lead = true ->
    all (fun c => negb (Re.is_char "(" c)) mid = true ->
    blank gap = true ->
    forallb written_ok ws = true ->
    left ++ right = list_text gap ws ->
    Re.is_eol nl = true ->
    Re.has_eol comment = false ->
    all (fun c => negb (Re.is_char ")" c)) comment = true ->
    getArguments
      (function_text lead mid (left ++ "//" ++ comment ++ String nl right)
         tail)
    = Some (map param ws).
Proof.
  intros lead mid tail gap left right comment nl ws
    Hlead Hmid Hgap Hws Hcut Hnl Heol Hcomment.
  destruct (list_text_halves (Re.is_char ")") gap left right ws)
    as [Hl' Hr']; try assumption; try reflexivity;
    try (intros c Hc; first [apply (ident_char_plain c Hc)
                            | apply (space_plain c Hc)]).
  destruct (list_text_halves (Re.is_char "/") gap left right ws)
    as [Hl Hr]; try assumption; try reflexivity;
    try (intros c Hc; first [apply (ident_char_plain c Hc)
                            | apply (space_plain c Hc)]).
  apply (getArguments_general lead mid _ tail gap ws); try assumption.
  - change (String nl right) with (String nl EmptyString ++ right).
    rewrite !all_app, Hl', Hcomment, Hr'. cbn [all andb].
    destruct nl as [[] [] [] [] [] [] [] []]; try discriminate Hnl; reflexivity.
  - rewrite (m2_line_comment _ _ _ _ Hl Heol Hnl), <- Hcut.
    unfold Re.m2_removed. now rewrite (strip_no_slash _ Hr).
Qed.

Lemma append_assoc (a b c : string) : (a ++ b) ++ c = a ++ b ++ c.
Proof. induction a as [| x a IH]; cbn; [reflexivity | now rewrite IH]. Qed.

Lemma split_comma_glue (a s : string) :
  all (fun c => negb (Re.is_char "," c)) a = true ->
  Re.split_comma (a ++ s)
  = (a ++ hd EmptyString (Re.split_comma s)) :: tl (Re.split_comma s).
Proof.
  induction a as [| c a IH]; cbn [append all].
  - intros _. destruct s as [| c s]; [reflexivity |].
    cbn [Re.split_comma]. destruct (Re.is_char "," c); [reflexivity |].
    now destruct (Re.split_comma s).
  - intros [Hc Ha]%andb_true_iff. apply negb_true_iff in Hc.
    cbn [Re.split_comma]. now rewrite Hc, (IH Ha).
Qed.

Lemma split_comma_tail_comment (names : list string) (t : string) :
  forallb (all (fun c => negb (Re.is_char "," c))) names = true ->
  Re.split_comma (String.concat "," names ++ "//" ++ t)
  = (removelast names
       ++ (last names EmptyString ++ "//"
             ++ hd EmptyString (Re.split_comma t))%string
       :: tl (Re.split_comma t))%list.
Proof.
  induction names as [| n names IH]; cbn [forallb].
  - intros _. change (String.concat "," [] ++ "//" ++ t) with ("//" ++ t).
    now rewrite (split_comma_glue "//" t eq_refl).
  - intros [Hn Hnames]%andb_true_iff. destruct names as [| n' names].
    + rewrite concat_one.
      rewrite <- (append_assoc n "//" t).
      rewrite split_comma_glue by (now rewrite all_app, Hn).
      cbn [removelast last app]. now rewrite !append_assoc.
    + rewrite concat_cons, !append_assoc.
      change ("," ++ String.concat "," (n' :: names) ++ "//" ++ t)
        with (String "," (String.concat "," (n' :: names) ++ "//" ++ t)).
      rewrite (split_comma_app _ _ Hn), (IH Hnames). reflexivity.
Qed.

(** X6. A line comment in the parameter list of such a function that no
    line end follows before the closing parenthesis is not removed.  For a
    comment text without a slash: with the white space deleted, the two
    slashes and the comment's text up to its first comma are appended to the
    last declared name, and every comma in the comment starts a further
    returned name. *)
Theorem getArguments_keeps_open_line_comment :
  forall (lead mid tail gap comment : string) (ws : list written),
    all (fun c => Re.is_space c || Re.is_char "(" c) lead = true ->
    all (fun c => negb (Re.is_char "(" c)) mid = true ->
    blank gap = true ->
    forallb written_ok ws = true ->
    all (fun c => negb (Re.is_char "/" c || Re.is_eol c || Re.is_char ")" c))
      comment = true ->
    let pieces := Re.split_comma (Re.m3_removed comment) in
    getArguments
      (function_text lead mid (list_text gap ws ++ "//" ++ comment) tail)
    = Some (removelast (map param ws)
              ++ (last (map param ws) EmptyString ++ "//"
                    ++ hd EmptyString pieces)%string
              :: tl pieces)%list.
Proof.
  intros lead mid tail gap comment ws Hlead Hmid Hgap Hws Hcomment pieces.
  assert (Hpart : forall f : ascii -> bool,
             (forall c, negb (Re.is_char "/" c || Re.is_eol c
                              || Re.is_char ")" c) = true ->
                        negb (f c) = true) ->
             all (fun c => negb (f c)) comment = true).
  { intros f Hf. eapply all_impl; [| exact Hcomment]. exact Hf. }
  assert (Hslash : all (fun c => negb (Re.is_char "/" c)) comment = true).
  { apply Hpart. intros c. now destruct (Re.is_char "/" c). }
  assert (Hparen : all (fun c => negb (Re.is_char ")" c)) comment = true).
  { apply Hpart. intros c.
    destruct (Re.is_char ")" c); [| reflexivity]. now rewrite !orb_true_r. }
  assert (Heol : Re.has_eol comment = false).
  { clear - Hcomment. induction comment as [| c s IH]; [reflexivity |].
    cbn [all Re.has_eol] in *. apply andb_true_iff in Hcomment as [Hc Hs].
    rewrite (IH Hs), orb_false_r.
    destruct (Re.is_eol c); [| reflexivity].
    now rewrite orb_true_r in Hc. }
  assert (Htext_paren :
            all (fun c => negb (Re.is_char ")" c)) (list_text gap ws) = true).
  { apply (list_text_plain (Re.is_char ")")); try assumption; try reflexivity.
    - intros c Hc. apply (ident_char_plain c Hc).
    - intros c Hc. apply (space_plain c Hc). }
  assert (Htext_slash :
            all (fun c => negb (Re.is_char "/" c)) (list_text gap ws) = true).
  { apply (list_text_plain (Re.is_char "/")); try assumption; try reflexivity.
    - intros c Hc. apply (ident_char_plain c Hc).
    - intros c Hc. apply (space_plain c Hc). }
  assert (Hm1 : Re.m1 (function_text lead mid
                         (list_text gap ws ++ "//" ++ comment) tail)
                = Some (list_text gap ws ++ "//" ++ comment)).
  { apply m1_matches. exists lead, mid, tail. repeat split; try assumption.
    now rewrite !all_app, Htext_paren, Hparen. }
  unfold getArguments. rewrite Hm1.
  rewrite (m2_open_line_comment _ _ Htext_slash Hslash Heol).
  rewrite !m3_removed_app, (m3_removed_list_text _ _ Hgap Hws).
  change (Re.m3_removed "//") with "//".
  rewrite (split_comma_tail_comment _ _ (params_no_comma ws Hws)).
  fold pieces. rewrite names_kept; [reflexivity |].
  destruct (removelast (map param ws)) as [| a r]; [| now destruct r].
  cbn [app]. intros [= E _].
  destruct (last (map param ws) EmptyString); discriminate E.
Qed.

(** ** Further properties of [publicMethods] and [Server] *)

Lemma mem_In (k : string) (l : list string) : mem k l = true <-> In k l.
Proof.
  unfold mem. rewrite existsb_exists. split.
  - intros (x & Hx & Heq). apply String.eqb_eq in Heq. now subst.
  - intros H. exists k. split; [exact H | apply String.eqb_refl].
Qed.

Lemma registered_keys (o : obj) (k : string) :
  registered o k = true <-> In k (keys o).
Proof.
  unfold registered. induction o as [| [k0 v0] o IH]; cbn.
  - split; [discriminate | contradiction].
  - destruct (String.eqb_spec k0 k) as [-> | Hk].
    + split; auto.
    + rewrite IH. split; [auto | intros [H | H]; [now elim Hk | exact H]].
Qed.

Lemma keys_set (o : obj) (k : string) (v : value) :
  keys (set o k v) = if registered o k then keys o else (keys o ++ [k])%list.
Proof.
  unfold registered, keys.
  induction o as [| [k0 v0] o IH]; cbn; [reflexivity |].
  destruct (String.eqb k0 k); cbn; [reflexivity |].
  rewrite IH. now destruct (own o k).
Qed.

Lemma get_set (o : obj) (k k' : string) (v : value) :
  get (set o k v) k' = if String.eqb k k' then v else get o k'.
Proof.
  unfold get. rewrite own_set. now destruct (String.eqb k k').
Qed.

Lemma set_set (o : obj) (k : string) (v v' : value) :
  set (set o k v) k v' = set o k v'.
Proof.
  induction o as [| [k0 v0] o IH]; cbn.
  - now rewrite String.eqb_refl.
  - destruct (String.eqb k0 k) eqn:Hk; cbn; rewrite Hk; [reflexivity |].
    now rewrite IH.
Qed.

Lemma underscore_differs (k n : string) :
  underscore k = true -> underscore n = false -> String.eqb k n = false.
Proof.
  intros Hk Hn. destruct (String.eqb_spec k n) as [-> |]; congruence.
Qed.

Lemma collect_public (ctx : obj) (n : string) :
  In n (keys (collect ctx)) <-> In n (keys ctx) /\ public ctx n = true.
Proof.
  rewrite <- registered_keys, <- mem_In. unfold collect.
  rewrite registered_fold. cbn. now rewrite andb_true_iff.
Qed.

Lemma keys_fold (ctx : obj) (names : list string) (acc : obj) :
  NoDup names ->
  (forall n, In n names -> registered acc n = false) ->
  keys
    (fold_left
       (fun methods name =>
          if negb (underscore name)
             && String.eqb (typeof (get ctx name)) "function"
          then set methods name (VBool true)
          else methods)
       names acc)
  = (keys acc ++ filter (public ctx) names)%list.
Proof.
  intros Hdup. revert acc.
  induction Hdup as [| n names Hn _ IH]; intros acc Hacc; cbn [fold_left filter].
  - now rewrite app_nil_r.
  - fold (public ctx n). destruct (public ctx n).
    + rewrite IH.
      * rewrite keys_set, (Hacc n (or_introl eq_refl)).
        now rewrite <- app_assoc.
      * intros m Hm. rewrite registered_set, (Hacc m (or_intror Hm)).
        destruct (String.eqb_spec n m) as [-> |]; [now elim Hn | reflexivity].
    + apply IH. intros m Hm. apply Hacc. now right.
Qed.

Lemma inspect_fails (ctx : obj) (names : list string) :
  inspect ctx names = None
  <-> exists n, In n names /\ getArguments (toString (get ctx n)) = None.
Proof.
  induction names as [| n names IH]; cbn.
  - split; [discriminate | intros (_ & [] & _)].
  - destruct (getArguments (toString (get ctx n))) as [args |] eqn:Hargs.
    + destruct (inspect ctx names) as [inspected |].
      * split; [discriminate |].
        intros (m & [<- | Hm] & Hnone); [congruence |].
        assert (Hbad : Some inspected = None)
          by (apply (proj2 IH); now exists m).
        discriminate Hbad.
      * split; [| reflexivity]. intros _.
        destruct (proj1 IH eq_refl) as (m & Hm & Hnone).
        exists m. auto.
    + split; [| reflexivity]. intros _. exists n. auto.
Qed.

Lemma inspect_ext (ctx1 ctx2 : obj) (names : list string) :
  (forall n, In n names -> get ctx1 n = get ctx2 n) ->
  inspect ctx1 names = inspect ctx2 names.
Proof.
  induction names as [| n names IH]; intros H; cbn; [reflexivity |].
  rewrite (H n (or_introl eq_refl)), IH; [reflexivity |].
  intros m Hm. apply H. now right.
Qed.

Lemma collect_set_underscore (ctx : obj) (k : string) (v : value) :
  underscore k = true -> collect (set ctx k v) = collect ctx.
Proof.
  intros Hk. unfold collect.
  assert (Hstep : forall names acc,
             fold_left
               (fun methods name =>
                  if negb (underscore name)
                     && String.eqb (typeof (get (set ctx k v) name)) "function"
                  then set methods name (VBool true)
                  else methods)
               names acc
             = fold_left
                 (fun methods name =>
                    if negb (underscore name)
                       && String.eqb (typeof (get ctx name)) "function"
                    then set methods name (VBool true)
                    else methods)
                 names acc).
  { induction names as [| n names IH]; intros acc; cbn [fold_left];
      [reflexivity |].
    rewrite IH. f_equal. rewrite get_set.
    destruct (underscore n) eqn:Hn; [reflexivity |].
    now rewrite (underscore_differs _ _ Hk Hn). }
  rewrite Hstep, keys_set.
  destruct (registered ctx k); [reflexivity |].
  rewrite fold_left_app. cbn [fold_left]. now rewrite Hk.
Qed.

(** X7. The registry that [publicMethods] returns has as its keys exactly
    [_zerorpc_inspect] and the enumerated members of the context that are
    functions and whose names do not start with an underscore. *)
Theorem registry_is_public_functions_plus_inspect :
  forall (ctx methods ctx' : obj) (k : string),
    publicMethods ctx = Some (methods, ctx') ->
    (In k (keys methods)
     <-> k = "_zerorpc_inspect"
         \/ (In k (keys ctx) /\ underscore k = false
             /\ typeof (get ctx k) = "function")).
Proof.
  clear stack_of. intros ctx methods ctx' k H.
  rewrite <- registered_keys, (registry_exact _ _ _ k H).
  rewrite orb_true_iff, andb_true_iff, mem_In. unfold public.
  rewrite andb_true_iff, negb_true_iff, !String.eqb_eq.
  intuition congruence.
Qed.

(** X8. For a context whose members have distinct names and none of whose
    public functions has a name made of digits only, the registry enumerates
    the public functions in the order of the context, followed by
    [_zerorpc_inspect], and the manifest stored in the injected introspector
    has one entry per public function in that same order, each with the
    function's name and a parameter list that starts with ["self"]; the
    introspector is not listed in the manifest. *)
Theorem manifest_follows_context_order :
  forall (ctx methods ctx' : obj),
    publicMethods ctx = Some (methods, ctx') ->
    NoDup (keys ctx) ->
    (forall n, In n (keys ctx) -> public ctx n = true ->
               digits_only n = false) ->
    keys methods = (filter (public ctx) (keys ctx) ++ ["_zerorpc_inspect"])%list
    /\ exists inspected,
         own ctx' "_zerorpc_inspect"
         = Some (VInspect (VObj [("methods", VArr inspected)]))
         /\ Forall2 (fun n e => exists args, e = entry n ("self" :: args))
              (filter (public ctx) (keys ctx)) inspected.
Proof.
  intros ctx methods ctx'. unfold publicMethods.
  destruct (inspect ctx (keys (collect ctx))) as [inspected |] eqn:Hinspect;
    [| discriminate].
  intros [= <- <-] Hdup _.
  assert (Hkeys : keys (collect ctx) = filter (public ctx) (keys ctx)).
  { unfold collect. rewrite keys_fold; [reflexivity | exact Hdup |].
    intros n _. reflexivity. }
  split.
  - rewrite keys_set.
    destruct (registered (collect ctx) "_zerorpc_inspect") eqn:Hreg.
    + apply registered_keys, collect_public in Hreg as [_ Hreg].
      discriminate Hreg.
    + now rewrite Hkeys.
  - exists inspected. split.
    + rewrite own_set. reflexivity.
    + rewrite <- Hkeys. apply inspect_entries in Hinspect.
      eapply Forall2_impl; [| exact Hinspect].
      intros n e (params & _ & ->). now exists (tl params).
Qed.

(** X9. Constructing a server throws exactly when some public function of
    the context has a source text that [getArguments] cannot read; one such
    member is enough, whatever the other members are. *)
Theorem Server_throws_iff_unreadable_method :
  forall (ctx : obj) (options : value),
    Server ctx options = None
    <-> exists n,
          In n (keys ctx) /\ public ctx n = true
          /\ getArguments (toString (get ctx n)) = None.
Proof.
  intros ctx options. unfold Server, publicMethods.
  destruct (inspect ctx (keys (collect ctx))) as [inspected |] eqn:Hinspect.
  - split; [discriminate |].
    intros (n & Hn & Hpub & Hnone). exfalso.
    assert (Hfail : inspect ctx (keys (collect ctx)) = None).
    { apply inspect_fails. exists n. split; [| exact Hnone].
      apply collect_public. now split. }
    congruence.
  - split; [| reflexivity]. intros _.
    apply inspect_fails in Hinspect as (n & Hn & Hnone).
    apply collect_public in Hn as [Hn Hpub]. now exists n.
Qed.

(** X10. Constructing a second server on the context that a first
    construction left behind gives the same registry and heartbeat and
    leaves the context as it is: the injected introspector is skipped by the
    enumeration and is replaced by an equal one. *)
Theorem Server_twice_same :
  forall (ctx : obj) (options : value) (self : server) (ctx' : obj),
    Server ctx options = Some (self, ctx') ->
    Server ctx' options = Some (self, ctx').
Proof.
  intros ctx options self ctx'. unfold Server, publicMethods.
  destruct (inspect ctx (keys (collect ctx))) as [inspected |] eqn:Hinspect;
    [| discriminate].
  intros [= <- <-].
  rewrite (collect_set_underscore ctx "_zerorpc_inspect" _ eq_refl).
  rewrite (inspect_ext _ ctx), Hinspect.
  - now rewrite set_set.
  - intros n Hn. apply collect_public in Hn as [_ Hpub].
    rewrite get_set. unfold public in Hpub.
    apply andb_true_iff in Hpub as [Hn _]. apply negb_true_iff in Hn.
    now rewrite (underscore_differs "_zerorpc_inspect" n eq_refl Hn).
Qed.

(** X11. When the options or the [heartbeat] option are missing, or the
    option is falsy (0 included), the heartbeat interval is the default of 5
    seconds times 1000, that is 5000.  When the option is an integer other
    than 0 whose product with 1000 stays within 2^53 in absolute value, the
    interval is that product. *)
Theorem heartbeat_default_and_scale :
  forall (ctx : obj) (options : value) (self : server) (ctx' : obj),
    Server ctx options = Some (self, ctx') ->
    (truthy options = false -> heartbeat self = VNum 5000)
    /\ (truthy (prop options "heartbeat") = false ->
        heartbeat self = VNum 5000)
    /\ (forall n, prop options "heartbeat" = VNum n -> n <> 0%Z ->
                  (Z.abs n * 1000 <= 2 ^ 53)%Z ->
                  heartbeat self = VNum (n * 1000)).
Proof.
  intros ctx options self ctx'. unfold Server.
  destruct (publicMethods ctx) as [[methods c] |]; [| discriminate].
  intros [= <- _]. cbn [heartbeat]. repeat split.
  - intros Hopt. unfold or_else at 2. rewrite Hopt. reflexivity.
  - intros Hhb. unfold or_else at 2.
    destruct (truthy options); [| reflexivity].
    unfold or_else. now rewrite Hhb.
  - intros n Hn Hnz _.
    assert (Hopt : truthy options = true)
      by (destruct options; try discriminate Hn; reflexivity).
    unfold or_else at 2. rewrite Hopt. unfold or_else. rewrite Hn.
    cbn. destruct (Z.eqb_spec n 0); [now elim Hnz | reflexivity].
Qed.

(** ** Further properties of the dispatch *)

(** X12. A request whose name is neither a key of the registry nor a member
    of [Object.prototype] is dropped: the listener does nothing at all,
    whatever the context holds under that name at that time, so a method
    added to the context after construction is not served. *)
Theorem unregistered_request_has_no_effect :
  forall (self : server) (ctx : obj) (ev : event),
    registered (methods self) (name ev) = false ->
    mem (name ev) Object_prototype = false ->
    receive self ctx ev = None /\ effects (receive self ctx ev) = [].
Proof.
  intros self ctx ev Hreg Hproto.
  now rewrite (unknown_name_dropped self ctx ev Hreg Hproto).
Qed.

Lemma dispatch_appends_callback_last_aux
  (self : server) (ctx : obj) (ev : event) (items : list value) (src : string) :
  has (methods self) (name ev) = true ->
  args ev = VArr items ->
  get ctx (name ev) = VFun src ->
  receive self ctx ev
  = Some (Normal tt,
          {| isFirst := true; finished := false; context := ctx;
             trace := [ OpenChannel ev; AddHeartbeat (heartbeat self);
                        Apply (VFun src) (items ++ [VResult]) ] |}).
Proof.
  intros Hin Hargs Hget.
  unfold receive, _recv. rewrite Hin. js_unfold.
  rewrite Hargs. cbn. now rewrite Hget.
Qed.

(** X13. A request that passes the registry test, carries an array of
    arguments and names a member that is an application function opens a
    channel, attaches the heartbeat with the server's interval and applies
    the function to the request's arguments in their order followed by the
    result callback as the last argument; nothing is sent and the channel is
    open when the function gets control. *)
Theorem dispatch_appends_callback_last :
  forall (self : server) (ctx : obj) (ev : event)
         (items : list value) (src : string),
    has (methods self) (name ev) = true ->
    args ev = VArr items ->
    get ctx (name ev) = VFun src ->
    receive self ctx ev
    = Some (Normal tt,
            {| isFirst := true; finished := false; context := ctx;
               trace := [ OpenChannel ev; AddHeartbeat (heartbeat self);
                          Apply (VFun src) (items ++ [VResult]) ] |}).
Proof.
  intros self ctx ev items src.
  apply dispatch_appends_callback_last_aux.
Qed.

(** X14. A request for [_zerorpc_inspect] with no arguments, on the context
    that construction left behind, is answered at once: one OK frame whose
    payload is the one-element array holding the manifest object, and the
    channel is closed. *)
Theorem inspect_request_replies_manifest :
  forall (ctx : obj) (options : value) (self : server) (ctx' : obj),
    Server ctx options = Some (self, ctx') ->
    let ev := {| name := "_zerorpc_inspect"; args := VArr [] |} in
    exists inspected,
      manifest ctx = Some (VArr inspected)
      /\ receive self ctx' ev
         = Some (Normal tt,
                 {| isFirst := false; finished := true; context := ctx';
                    trace := [ OpenChannel ev; AddHeartbeat (heartbeat self);
                               Send "OK"
                                 (VArr [VObj [("methods", VArr inspected)]]);
                               Close ] |}).
Proof.
  intros ctx options self ctx'. unfold Server, manifest, publicMethods.
  destruct (inspect ctx (keys (collect ctx))) as [inspected |]; [| discriminate].
  intros [= <- <-]. cbn zeta. exists inspected.
  rewrite get_set, String.eqb_refl. split; [reflexivity |].
  unfold receive, has. cbn [methods heartbeat name].
  rewrite own_set, String.eqb_refl. unfold _recv. js_unfold. cbn.
  now rewrite get_set, String.eqb_refl.
Qed.

(** X15. A request for [_zerorpc_inspect] that carries arguments binds the
    first of them, not the result callback, to the introspector's [cb]:
    when that argument is not a function the call throws a TypeError after
    the channel has been opened, nothing is sent and the channel is not
    closed. *)
Theorem inspect_request_with_arguments_throws :
  forall (ctx : obj) (options : value) (self : server) (ctx' : obj)
         (first : value) (rest : list value),
    Server ctx options = Some (self, ctx') ->
    typeof first <> "function" ->
    let ev := {| name := "_zerorpc_inspect"; args := VArr (first :: rest) |} in
    receive self ctx' ev
    = Some (Throw TypeError,
            {| isFirst := true; finished := false; context := ctx';
               trace := [OpenChannel ev; AddHeartbeat (heartbeat self)] |}).
Proof.
  intros ctx options self ctx' first rest. unfold Server, publicMethods.
  destruct (inspect ctx (keys (collect ctx))) as [inspected |]; [| discriminate].
  intros [= <- <-] Hfirst. cbn zeta.
  unfold receive, has. cbn [methods heartbeat name].
  rewrite own_set, String.eqb_refl. unfold _recv. js_unfold. cbn.
  rewrite get_set, String.eqb_refl.
  destruct first; try reflexivity; now elim Hfirst.
Qed.

(** X16. A request that passes the registry test and carries an array of
    arguments, but whose member of the context is not a function when the
    request arrives (and has no callable [apply] of its own), throws a
    TypeError after the channel has been opened and the heartbeat attached;
    nothing is sent and the channel is not closed. *)
Theorem dispatch_to_non_function_throws :
  forall (self : server) (ctx : obj) (ev : event) (items : list value),
    has (methods self) (name ev) = true ->
    args ev = VArr items ->
    typeof (get ctx (name ev)) <> "function" ->
    typeof (prop (get ctx (name ev)) "apply") <> "function" ->
    receive self ctx ev
    = Some (Throw TypeError,
            {| isFirst := true; finished := false; context := ctx;
               trace := [OpenChannel ev; AddHeartbeat (heartbeat self)] |}).
Proof.
  intros self ctx ev items Hin Hargs Hget _.
  unfold receive, _recv. rewrite Hin. js_unfold.
  rewrite Hargs. cbn.
  destruct (get ctx (name ev)); try reflexivity; now elim Hget.
Qed.

(** X17. Dispatch followed by a single reply: when the applied function
    calls the result callback once with no error and a false [more], the
    whole call consists of the opening of the channel, the heartbeat, the
    application, one OK frame with the one-element array of the item, and
    the close. *)
Theorem dispatch_then_single_reply :
  forall (self : server) (ctx : obj) (ev : event) (items : list value)
         (src : string) (r : completion unit) (st : call)
         (error item more : value),
    has (methods self) (name ev) = true ->
    args ev = VArr items ->
    get ctx (name ev) = VFun src ->
    receive self ctx ev = Some (r, st) ->
    truthy error = false ->
    truthy more = false ->
    trace (invoke st (error, item, more))
    = [ OpenChannel ev; AddHeartbeat (heartbeat self);
        Apply (VFun src) (items ++ [VResult]);
        Send "OK" (VArr [item]); Close ]
    /\ finished (invoke st (error, item, more)) = true.
Proof.
  intros self ctx ev items src r st error item more
    Hin Hargs Hget Hrecv Herror Hmore.
  rewrite (dispatch_appends_callback_last_aux self ctx ev items src
             Hin Hargs Hget) in Hrecv.
  injection Hrecv as <- <-.
  unfold invoke. js_unfold. rewrite Herror, Hmore. cbn. auto.
Qed.

(** ** Further properties of the result protocol *)

(** X18. On a channel that is not finished, an invocation with no error, a
    true [more] and an item that is neither null nor undefined sends one
    STREAM frame carrying the item as it is, not wrapped in an array, and
    leaves the channel open; it makes no difference whether it is the first
    invocation. *)
Theorem stream_item_is_sent_raw :
  forall (st : call) (error item more : value),
    finished st = false ->
    truthy error = false ->
    truthy more = true ->
    neq_undefined item = true ->
    result error item more st
    = (Normal tt,
       {| isFirst := false; finished := false; context := context st;
          trace := (trace st ++ [Send "STREAM" item])%list |}).
Proof.
  intros [first fin ctx tr] error item more Hfin Herror Hmore Hitem.
  cbn in Hfin. subst fin. js_unfold.
  rewrite Herror, Hmore, Hitem, andb_false_r. reflexivity.
Qed.

(** X19. On a channel that is not finished, an invocation that is not the
    first one, with no error, a false [more] and an item that is neither
    null nor undefined sends the item in a STREAM frame, then a STREAM_DONE
    frame with an empty array, and closes the channel. *)
Theorem last_item_then_done :
  forall (st : call) (error item more : value),
    finished st = false ->
    isFirst st = false ->
    truthy error = false ->
    truthy more = false ->
    neq_undefined item = true ->
    result error item more st
    = closed_with st [Send "STREAM" item; Send "STREAM_DONE" (VArr [])].
Proof.
  intros [first fin ctx tr] error item more Hfin Hfirst Herror Hmore Hitem.
  cbn in Hfin, Hfirst. subst first fin. unfold closed_with. js_unfold.
  rewrite Herror, Hmore, Hitem. cbn. now rewrite <- !app_assoc.
Qed.

Lemma invoke_finished (st : call) (i : invocation) :
  finished st = true -> invoke st i = st.
Proof.
  destruct st as [first fin ctx tr], i as [[error item] more].
  cbn. now intros ->.
Qed.

(** X20. Once a call is finished nothing that the method does with the
    result callback has any effect: whatever invocations follow, the
    variables of the call and everything sent on the channel stay as they
    are. *)
Theorem finished_channel_is_frozen :
  forall (calls : list invocation) (st : call),
    finished st = true ->
    invoke_all calls st = st.
Proof.
  induction calls as [| i calls IH]; intros st Hfin; cbn; [reflexivity |].
  rewrite (invoke_finished st i Hfin). now apply IH.
Qed.

Lemma invoke_closes (st : call) (i : invocation) :
  closes (finished st) (trace st) ->
  closes (finished (invoke st i)) (trace (invoke st i)).
Proof.
  destruct st as [first fin ctx tr], i as [[error item] more].
  unfold invoke. js_unfold.
  destruct fin; [intros H; exact H |].
  cbn. intros Hq.
  assert (Hsend : forall k p, filter is_close (tr ++ [Send k p]) = []).
  { intros k p. now rewrite filter_app, Hq. }
  destruct (truthy error).
  - cbn. eexists. split; [reflexivity | apply Hsend].
  - destruct first, (truthy more), (neq_undefined item); cbn;
      try exact Hq; try apply Hsend;
      try (eexists; split; [reflexivity |]);
      rewrite ?filter_app, ?Hq; try reflexivity; try exact Hq.
Qed.

Lemma invoke_all_closes (calls : list invocation) (st : call) :
  closes (finished st) (trace st) ->
  closes (finished (invoke_all calls st)) (trace (invoke_all calls st)).
Proof.
  revert st. induction calls as [| i calls IH]; intros st H; cbn.
  - exact H.
  - apply IH, invoke_closes, H.
Qed.

(** X21. Whatever invocations a method makes, the channel of its call is
    closed at most once; it has been closed exactly when [finished] is set,
    and then the close is the last thing that happened on the channel. *)
Theorem channel_closed_once_when_finished :
  forall (calls : list invocation) (ctx : obj) (before : list effect),
    filter is_close before = [] ->
    let st := invoke_all calls (fresh ctx before) in
    length (filter is_close (trace st)) = (if finished st then 1 else 0)%nat
    /\ (finished st = true -> exists pre, trace st = (pre ++ [Close])%list).
Proof.
  intros calls ctx before Hbefore st.
  assert (H : closes (finished st) (trace st))
    by (apply invoke_all_closes; exact Hbefore).
  unfold closes in H. destruct (finished st).
  - destruct H as (pre & -> & Hpre). split.
    + now rewrite filter_app, Hpre.
    + intros _. now exists pre.
  - split; [now rewrite H | discriminate].
Qed.

Lemma streamed_snoc (items : list value) (item : value) :
  (streamed items ++ [Send "STREAM" item])%list = streamed (items ++ [item]).
Proof. unfold streamed. now rewrite map_app. Qed.

Lemma defined_snoc (items : list value) (item : value) :
  defined items -> neq_undefined item = true -> defined (items ++ [item]).
Proof.
  intros H Hitem. apply Forall_app. split; [exact H |]. now repeat constructor.
Qed.

Lemma invoke_follows (before : list effect) (st : call) (i : invocation) :
  follows before st -> follows before (invoke st i).
Proof.
  destruct st as [first fin ctx tr], i as [[error item] more].
  unfold follows, invoke. js_unfold.
  destruct fin; [intros H; exact H |].
  cbn. intros (ops & -> & (items & Hdef & ->) & Hfirst).
  specialize (Hfirst eq_refl).
  destruct (truthy error).
  - cbn. eexists. split; [| split; [| discriminate]].
    + rewrite <- !app_assoc. reflexivity.
    + right. exists items. eexists. split; [exact Hdef |].
      split; [| reflexivity]. right. eauto.
  - destruct first.
    + assert (Hnil : items = [])
        by (specialize (Hfirst eq_refl); now destruct items).
      subst items. cbn [streamed map]. rewrite app_nil_r.
      destruct (truthy more), (neq_undefined item) eqn:Hitem; cbn.
      * exists [Send "STREAM" item]. split; [reflexivity |].
        split; [| discriminate]. exists [item].
        split; [now repeat constructor | reflexivity].
      * exists []. split; [now rewrite app_nil_r |].
        split; [| discriminate]. exists []. split; [constructor | reflexivity].
      * exists [Send "OK" (VArr [item]); Close].
        split; [now rewrite <- !app_assoc |]. split; [| discriminate].
        left. now exists item.
      * exists [Send "OK" (VArr [item]); Close].
        split; [now rewrite <- !app_assoc |]. split; [| discriminate].
        left. now exists item.
    + destruct (truthy more), (neq_undefined item) eqn:Hitem; cbn.
      * exists (streamed (items ++ [item])).
        split; [now rewrite <- streamed_snoc, <- !app_assoc |].
        split; [| discriminate]. exists (items ++ [item])%list.
        split; [now apply defined_snoc | reflexivity].
      * exists (streamed items). split; [reflexivity |].
        split; [| discriminate]. now exists items.
      * exists (streamed (items ++ [item])
                  ++ [Send "STREAM_DONE" (VArr []); Close])%list.
        split; [now rewrite <- streamed_snoc, <- !app_assoc |].
        split; [| discriminate]. right.
        exists (items ++ [item])%list, (Send "STREAM_DONE" (VArr [])).
        split; [now apply defined_snoc |]. split; [now left | reflexivity].
      * exists (streamed items ++ [Send "STREAM_DONE" (VArr []); Close])%list.
        split; [now rewrite <- !app_assoc |].
        split; [| discriminate]. right.
        exists items, (Send "STREAM_DONE" (VArr [])).
        split; [exact Hdef |]. split; [now left | reflexivity].
Qed.

(** X22. Whatever invocations a method makes, what its channel has seen
    since the call was handed over follows the result protocol: STREAM
    frames of items that are neither null nor undefined while the call is
    open; for a finished call either a single OK frame with a one-element
    array and nothing else, or STREAM frames ended by one STREAM_DONE with
    an empty array or one ERR with a three-element array, and then the
    close.  In particular an OK frame is never preceded or followed by
    another frame. *)
Theorem channel_follows_protocol :
  forall (calls : list invocation) (ctx : obj) (before : list effect),
    let st := invoke_all calls (fresh ctx before) in
    exists ops,
      trace st = (before ++ ops)%list /\ protocol (finished st) ops.
Proof.
  intros calls ctx before st.
  assert (Hinit : follows before (fresh ctx before)).
  { exists []. split; [now rewrite app_nil_r |].
    split; [| reflexivity]. exists []. split; [constructor | reflexivity]. }
  assert (H : follows before st).
  { subst st. revert Hinit. generalize (fresh ctx before).
    induction calls as [| i calls IH]; intros s Hs; cbn; [exact Hs |].
    apply IH, invoke_follows, Hs. }
  destruct H as (ops & Htrace & Hproto & _). now exists ops.
Qed.

End Server.

(** ** The theorems at concrete calls *)

Lemma first_reply_is_single_OK_witness :
  truthy VNull = false /\ truthy (VBool false) = false /\
  result stack_text VNull (VNum 3) (VBool false) (fresh [] [])
  = closed_with (fresh [] []) [Send "OK" (VArr [VNum 3])].
Proof.
  split; [reflexivity |]. split; [reflexivity |].
  apply (first_reply_is_single_OK stack_text); reflexivity.
Defined.

Lemma stream_then_done_witness :
  let st := {| isFirst := false; finished := false; context := [];
               trace := [Send "STREAM" (VStr "a")] |} in
  finished st = false /\ isFirst st = false /\
  truthy VNull = false /\ truthy (VBool false) = false /\
  result stack_text VNull VUndefined (VBool false) st
  = closed_with st [Send "STREAM_DONE" (VArr [])].
Proof.
  cbn zeta. repeat (split; [reflexivity |]).
  apply (proj2 (stream_then_done stack_text)); reflexivity.
Defined.

Lemma error_reply_is_single_ERR_witness :
  finished (fresh [] []) = false /\ truthy (VStr "boom") = true /\
  result stack_text (VStr "boom") VUndefined VUndefined (fresh [] [])
  = closed_with (fresh [] [])
      [Send "ERR" (VArr [VStr "Error"; VStr "boom"; VStr "Error: boom"])].
Proof.
  split; [reflexivity |]. split; [reflexivity |].
  apply (proj1 (error_reply_is_single_ERR stack_text (fresh [] [])
                  (VStr "boom") VUndefined VUndefined eq_refl eq_refl)).
Defined.

Lemma result_after_finish_throws_witness :
  let st := {| isFirst := false; finished := true; context := [];
               trace := [Send "OK" (VArr [VNum 3]); Close] |} in
  finished st = true /\
  result stack_text VNull (VNum 4) (VBool false) st
  = (Throw (Error "Result callback called after the channel was closed"), st).
Proof.
  cbn zeta. split; [reflexivity |].
  apply (result_after_finish_throws stack_text); reflexivity.
Defined.

Lemma nullish_item_is_skipped_witness :
  finished (fresh [] []) = false /\ truthy VNull = false /\
  truthy (VBool true) = true /\
  result stack_text VNull VNull (VBool true) (fresh [] [])
  = (Normal tt,
     {| isFirst := false; finished := false; context := []; trace := [] |}).
Proof.
  repeat (split; [reflexivity |]).
  apply (nullish_item_is_skipped stack_text (fresh [] [])); auto.
Defined.

Lemma terminal_frame_once_and_last_witness :
  let calls := [ (VNull, VStr "a", VBool true);
                 (VStr "boom", VUndefined, VUndefined);
                 (VNull, VStr "b", VBool true) ] in
  let st := invoke_all stack_text calls (fresh [] []) in
  quiet [] /\
  (length (filter terminal (trace st)) <= 1)%nat /\
  finished st = true.
Proof.
  cbn zeta.
  assert (Hquiet : quiet []) by constructor.
  split; [exact Hquiet |].
  destruct (terminal_frame_once_and_last stack_text
              [ (VNull, VStr "a", VBool true);
                (VStr "boom", VUndefined, VUndefined);
                (VNull, VStr "b", VBool true) ] [] [] Hquiet)
    as [Hcount Hlast].
  split; [exact Hcount |].
  apply (Hlast [Send "STREAM" (VStr "a")]
               (Send "ERR" (VArr [VStr "Error"; VStr "boom"; VStr "Error: boom"]))
               [Close]);
    reflexivity.
Defined.



Lemma construction_only_injects_introspector_witness :
  let ctx := [("ping", VFun "function (cb) { cb(null, 1); }")] in
  exists self ctx',
    Server ctx VUndefined = Some (self, ctx')
    /\ others ctx' = others ctx.
Proof.
  cbn zeta. eexists. eexists. split; [reflexivity |].
  apply (construction_only_injects_introspector stack_text
           [("ping", VFun "function (cb) { cb(null, 1); }")] VUndefined
           _ _ eq_refl).
Defined.

(** ** The further theorems at concrete inputs *)

Lemma getArguments_returns_declared_names_witness :
  getArguments "(function(a ,b,  cb) { cb(null, a + b); })"
  = Some ["a"; "b"; "cb"].
Proof.
  exact (getArguments_returns_declared_names
           "(" "" " { cb(null, a + b); })" ""
           [ {| pad_left := ""; param := "a"; pad_right := " " |};
             {| pad_left := ""; param := "b"; pad_right := "" |};
             {| pad_left := "  "; param := "cb"; pad_right := "" |} ]
           eq_refl eq_refl eq_refl eq_refl).
Defined.

Lemma getArguments_throws_iff_no_match_witness :
  getArguments "(a, cb) => cb(null, a)" = None
  /\ ~ (exists g, m1_shape "(a, cb) => cb(null, a)" g).
Proof.
  split; [reflexivity |].
  apply (proj1 (getArguments_throws_iff_no_match "(a, cb) => cb(null, a)")).
  reflexivity.
Defined.

Lemma getArguments_names_have_no_separator_witness :
  getArguments "function f( a /* x ) */, b) {}" = Some ["a/*x"]
  /\ Forall (fun n => all (fun c => negb (separator c)) n = true) ["a/*x"]
  /\ ["a/*x"] <> [EmptyString].
Proof.
  split; [reflexivity |].
  apply (getArguments_names_have_no_separator
           "function f( a /* x ) */, b) {}" ["a/*x"]).
  reflexivity.
Defined.

Lemma getArguments_ignores_block_comment_witness :
  getArguments "function(a, b /* second */, cb) { cb(null, a + b); }"
  = Some ["a"; "b"; "cb"].
Proof.
  exact (getArguments_ignores_block_comment
           "" "" " { cb(null, a + b); }" "" "a, b " ", cb" " second "
           [ {| pad_left := ""; param := "a"; pad_right := "" |};
             {| pad_left := " "; param := "b"; pad_right := " " |};
             {| pad_left := " "; param := "cb"; pad_right := "" |} ]
           eq_refl eq_refl eq_refl eq_refl eq_refl eq_refl eq_refl).
Defined.

Lemma getArguments_ignores_line_comment_witness :
  getArguments
    ("function add(a, // first" ++ String "010" "  b) { }")
  = Some ["a"; "b"].
Proof.
  exact (getArguments_ignores_line_comment
           "" " add" " { }" "" "a, " " b" " first" "010"
           [ {| pad_left := ""; param := "a"; pad_right := "" |};
             {| pad_left := "  "; param := "b"; pad_right := "" |} ]
           eq_refl eq_refl eq_refl eq_refl eq_refl eq_refl eq_refl eq_refl).
Defined.

Lemma getArguments_keeps_open_line_comment_witness :
  getArguments "function f(a, b // the callback, really) {}"
  = Some ["a"; "b//thecallback"; "really"].
Proof.
  exact (getArguments_keeps_open_line_comment
           "" " f" " {}" "" " the callback, really"
           [ {| pad_left := ""; param := "a"; pad_right := "" |};
             {| pad_left := " "; param := "b"; pad_right := " " |} ]
           eq_refl eq_refl eq_refl eq_refl eq_refl).
Defined.

Lemma registry_is_public_functions_plus_inspect_witness :
  exists methods ctx',
    publicMethods sample_context = Some (methods, ctx')
    /\ In "ping" (keys methods).
Proof.
  eexists. eexists. split; [reflexivity |].
  apply (proj2 (registry_is_public_functions_plus_inspect
                  sample_context _ _ "ping" eq_refl)).
  right. split; [cbn; tauto | split; reflexivity].
Defined.

Lemma manifest_follows_context_order_witness :
  exists methods ctx',
    publicMethods sample_context = Some (methods, ctx')
    /\ keys methods = ["add"; "ping"; "_zerorpc_inspect"].
Proof.
  eexists. eexists. split; [reflexivity |].
  apply (manifest_follows_context_order sample_context _ _ eq_refl).
  - repeat (constructor; [cbn; intuition discriminate |]). constructor.
  - intros n [<- | [<- | [<- | [<- | []]]]]; intros _; reflexivity.
Defined.

Lemma Server_throws_iff_unreadable_method_witness :
  Server [("double", VFun "(a, cb) => cb(null, 2 * a)")] VUndefined = None.
Proof.
  apply (proj2 (Server_throws_iff_unreadable_method
                  [("double", VFun "(a, cb) => cb(null, 2 * a)")] VUndefined)).
  exists "double". split; [now left | split; reflexivity].
Defined.

Lemma Server_twice_same_witness :
  exists self ctx',
    Server sample_context VUndefined = Some (self, ctx')
    /\ Server ctx' VUndefined = Some (self, ctx').
Proof.
  eexists. eexists. split; [reflexivity |].
  apply (Server_twice_same sample_context VUndefined _ _ eq_refl).
Defined.

Lemma heartbeat_default_and_scale_witness :
  exists self ctx',
    Server sample_context (VObj [("heartbeat", VNum 2)]) = Some (self, ctx')
    /\ heartbeat self = VNum 2000.
Proof.
  eexists. eexists. split; [reflexivity |].
  apply (proj2 (proj2 (heartbeat_default_and_scale sample_context
                         (VObj [("heartbeat", VNum 2)]) _ _ eq_refl)) 2%Z);
    [reflexivity | discriminate | discriminate].
Defined.

Lemma unregistered_request_has_no_effect_witness :
  effects (receive stack_text sample_server sample_context
             {| name := "_hidden"; args := VArr [] |}) = [].
Proof.
  apply (unregistered_request_has_no_effect stack_text sample_server
           sample_context {| name := "_hidden"; args := VArr [] |});
    reflexivity.
Defined.

Lemma dispatch_appends_callback_last_witness :
  let ev := {| name := "add"; args := VArr [VNum 1; VNum 2] |} in
  effects (receive stack_text sample_server sample_context ev)
  = [ OpenChannel ev; AddHeartbeat (VNum 5000);
      Apply (VFun "function (a, b, cb) { cb(null, a + b); }")
        [VNum 1; VNum 2; VResult] ].
Proof.
  cbn zeta.
  rewrite (dispatch_appends_callback_last stack_text sample_server
             sample_context {| name := "add"; args := VArr [VNum 1; VNum 2] |}
             [VNum 1; VNum 2] "function (a, b, cb) { cb(null, a + b); }"
             eq_refl eq_refl eq_refl).
  reflexivity.
Defined.

Lemma inspect_request_replies_manifest_witness :
  exists self ctx' inspected,
    Server sample_context VUndefined = Some (self, ctx')
    /\ effects (receive stack_text self ctx'
                  {| name := "_zerorpc_inspect"; args := VArr [] |})
       = [ OpenChannel {| name := "_zerorpc_inspect"; args := VArr [] |};
           AddHeartbeat (VNum 5000);
           Send "OK" (VArr [VObj [("methods", VArr inspected)]]);
           Close ].
Proof.
  destruct (inspect_request_replies_manifest stack_text sample_context
              VUndefined _ _ eq_refl) as (inspected & _ & Hrecv).
  eexists. eexists. exists inspected. split; [reflexivity |].
  rewrite Hrecv. reflexivity.
Defined.

Lemma inspect_request_with_arguments_throws_witness :
  exists self ctx',
    Server sample_context VUndefined = Some (self, ctx')
    /\ receive stack_text self ctx'
         {| name := "_zerorpc_inspect"; args := VArr [VNum 1] |}
       = Some (Throw TypeError,
               {| isFirst := true; finished := false; context := ctx';
                  trace := [ OpenChannel
                               {| name := "_zerorpc_inspect";
                                  args := VArr [VNum 1] |};
                             AddHeartbeat (VNum 5000) ] |}).
Proof.
  eexists. eexists. split; [reflexivity |].
  apply (inspect_request_with_arguments_throws stack_text sample_context
           VUndefined _ _ (VNum 1) [] eq_refl).
  discriminate.
Defined.

Lemma dispatch_to_non_function_throws_witness :
  let ev := {| name := "ping"; args := VArr [] |} in
  receive stack_text sample_server [("ping", VNull)] ev
  = Some (Throw TypeError,
          {| isFirst := true; finished := false; context := [("ping", VNull)];
             trace := [OpenChannel ev; AddHeartbeat (VNum 5000)] |}).
Proof.
  cbn zeta.
  apply (dispatch_to_non_function_throws stack_text sample_server
           [("ping", VNull)] {| name := "ping"; args := VArr [] |} []);
    [reflexivity | reflexivity | discriminate | discriminate].
Defined.

Lemma dispatch_then_single_reply_witness :
  let ev := {| name := "add"; args := VArr [VNum 1; VNum 2] |} in
  exists r st,
    receive stack_text sample_server sample_context ev = Some (r, st)
    /\ trace (invoke stack_text st (VNull, VNum 3, VBool false))
       = [ OpenChannel ev; AddHeartbeat (VNum 5000);
           Apply (VFun "function (a, b, cb) { cb(null, a + b); }")
             [VNum 1; VNum 2; VResult];
           Send "OK" (VArr [VNum 3]); Close ].
Proof.
  cbn zeta.
  exists (Normal tt),
    {| isFirst := true; finished := false; context := sample_context;
       trace := [ OpenChannel
                    {| name := "add"; args := VArr [VNum 1; VNum 2] |};
                  AddHeartbeat (VNum 5000);
                  Apply (VFun "function (a, b, cb) { cb(null, a + b); }")
                    [VNum 1; VNum 2; VResult] ] |}.
  split; [reflexivity |].
  apply (dispatch_then_single_reply stack_text sample_server sample_context
           {| name := "add"; args := VArr [VNum 1; VNum 2] |}
           [VNum 1; VNum 2] "function (a, b, cb) { cb(null, a + b); }"
           (Normal tt) _ VNull (VNum 3) (VBool false));
    reflexivity.
Defined.

Lemma stream_item_is_sent_raw_witness :
  result stack_text VNull (VNum 0) (VBool true) (fresh [] [])
  = (Normal tt,
     {| isFirst := false; finished := false; context := [];
        trace := [Send "STREAM" (VNum 0)] |}).
Proof.
  apply (stream_item_is_sent_raw stack_text (fresh [] [])); reflexivity.
Defined.

Lemma last_item_then_done_witness :
  let st := {| isFirst := false; finished := false; context := [];
               trace := [Send "STREAM" (VStr "a")] |} in
  result stack_text VNull (VStr "b") (VBool false) st
  = closed_with st [Send "STREAM" (VStr "b"); Send "STREAM_DONE" (VArr [])].
Proof.
  cbn zeta. apply (last_item_then_done stack_text); reflexivity.
Defined.

Lemma finished_channel_is_frozen_witness :
  let st := {| isFirst := false; finished := true; context := [];
               trace := [Send "OK" (VArr [VNum 3]); Close] |} in
  invoke_all stack_text
    [(VNull, VNum 4, VBool true); (VStr "late", VUndefined, VUndefined)] st
  = st.
Proof.
  cbn zeta. apply (finished_channel_is_frozen stack_text). reflexivity.
Defined.

Lemma channel_closed_once_when_finished_witness :
  let st := invoke_all stack_text
              [ (VNull, VStr "a", VBool true);
                (VNull, VUndefined, VBool false);
                (VNull, VStr "b", VBool false) ]
              (fresh [] []) in
  length (filter is_close (trace st)) = 1%nat.
Proof.
  cbn zeta.
  apply (proj1 (channel_closed_once_when_finished stack_text
                  [ (VNull, VStr "a", VBool true);
                    (VNull, VUndefined, VBool false);
                    (VNull, VStr "b", VBool false) ] [] [] eq_refl)).
Defined.
